(** * EqRADrive: the right-ascension motor drive sketch (EqRADrive.ino)

    A shallow embedding of the sketch for the ATmega328P: the quadrature
    decoder [pinChangeISR], the button polling and output stage of [loop],
    and the seven segment renderer [display], followed by the properties
    proved about them.

    Machine model.  On the ATmega328P [byte] is 8 bits unsigned, [int] is
    16 bits two's complement, [long] is 32 bits, and both [float] and
    [double] are IEEE 754 binary32.  Integers are [Z] with the wrap-around
    written out; floats are [spec_float] at precision 24 and maximal
    exponent 128, every operation rounding to nearest, ties to even. *)

From Stdlib Require Import ZArith List Bool Lia SpecFloat.
Import ListNotations.
Local Open Scope Z_scope.

(** ** Machine integers *)

Module Avr.

Definition wrap_byte (z : Z) : Z := z mod 256.

(** 16 bit two's complement [int]. *)
Definition wrap_int (z : Z) : Z := (z + 32768) mod 65536 - 32768.

(** 32 bit [long] and [unsigned long]. *)
Definition wrap_long (z : Z) : Z := (z + 2147483648) mod 4294967296 - 2147483648.
Definition wrap_ulong (z : Z) : Z := z mod 4294967296.

Definition int_range (z : Z) : Prop := -32768 <= z <= 32767.

End Avr.

(** ** Binary32 floats *)

Module F32.

Definition prec : Z := 24.
Definition emax : Z := 128.

Definition float := spec_float.

(** Conversion of an integer ([(float) count], or the implicit conversion
    of an [int] operand of a mixed operation). *)
Definition of_int (z : Z) : float := binary_normalize prec emax z 0 false.

Definition mul : float -> float -> float := SFmul prec emax.
Definition div : float -> float -> float := SFdiv prec emax.
Definition sub : float -> float -> float := SFsub prec emax.

(** Truncation toward zero, the integral part of a finite float. *)
Definition trunc (x : float) : Z :=
  match x with
  | S754_finite s m e => cond_Zopp s (Z.shiftl (Zpos m) e)
  | _ => 0
  end.

(** [int i = x;] for a float [x].  C++ defines the conversion only when the
    truncated value fits an [int]; outside of that (and for infinities and
    NaN) the model keeps the low 16 bits, respectively 0. *)
Definition to_int (x : float) : Z := Avr.wrap_int (trunc x).

(** A decimal literal [n / d] with [n], [d] below 2^24: the binary32
    nearest to the quotient. *)
Definition literal (n d : Z) : float := div (of_int n) (of_int d).

End F32.

(** ** Pins and constants *)

Definition MOTOR_A1_PIN : Z := 7.
Definition MOTOR_B1_PIN : Z := 8.
Definition PWM_OUTPUT_PIN : Z := 9.
Definition COUNTLIMIT : Z := 2046.
Definition RCLK_PIN : Z := 5.
Definition SCLK_PIN : Z := 6.
Definition DIO_PIN : Z := 4.

Definition LOW : bool := false.
Definition HIGH : bool := true.

(** ** Outputs

    What the sketch sends to the hardware, in the order it is sent. *)

Inductive event : Type :=
| DigitalWrite (pin : Z) (level : bool)
| ShiftOut (dataPin clockPin : Z) (value : option Z)
    (* MSBFIRST; [None] is a byte read past the end of the [bits] table *)
| Delay (ms : Z)
| TimerPwm (pin : Z) (duty : Z).

(** ** Global state

    One field per global the sketch uses ([timeOfLastEvent] and [old_count]
    are declared but never read or written), and [out], the outputs so far,
    oldest first. *)

Record state : Type := mkState {
  displayIsOn : bool;
  pwmUpdateNeeded : bool;
  abOld : Z;
  count : Z;
  lastpressed : Z;
  forward : bool;
  stopped : bool;
  speed2x : bool;
  speedFull : bool;
  dutyCycle : F32.float;
  out : list event
}.

(** The initializers of the globals; [abOld] has static storage and no
    initializer, hence 0.  [setup] configures pins, interrupts and the timer
    and assigns none of the globals. *)
Definition init : state := {|
  displayIsOn := true;
  pwmUpdateNeeded := true;
  abOld := 0;
  count := COUNTLIMIT / 13;
  lastpressed := 0;
  forward := true;
  stopped := false;
  speed2x := false;
  speedFull := false;
  dutyCycle := F32.of_int 8;
  out := []
|}.

(** Assignments.  There is none for [stopped]: the sketch never assigns it. *)

Definition set_displayIsOn (v : bool) (s : state) : state :=
  mkState v (pwmUpdateNeeded s) (abOld s) (count s) (lastpressed s) (forward s)
          (stopped s) (speed2x s) (speedFull s) (dutyCycle s) (out s).

Definition set_pwmUpdateNeeded (v : bool) (s : state) : state :=
  mkState (displayIsOn s) v (abOld s) (count s) (lastpressed s) (forward s)
          (stopped s) (speed2x s) (speedFull s) (dutyCycle s) (out s).

Definition set_abOld (v : Z) (s : state) : state :=
  mkState (displayIsOn s) (pwmUpdateNeeded s) v (count s) (lastpressed s) (forward s)
          (stopped s) (speed2x s) (speedFull s) (dutyCycle s) (out s).

Definition set_count (v : Z) (s : state) : state :=
  mkState (displayIsOn s) (pwmUpdateNeeded s) (abOld s) v (lastpressed s) (forward s)
          (stopped s) (speed2x s) (speedFull s) (dutyCycle s) (out s).

Definition set_lastpressed (v : Z) (s : state) : state :=
  mkState (displayIsOn s) (pwmUpdateNeeded s) (abOld s) (count s) v (forward s)
          (stopped s) (speed2x s) (speedFull s) (dutyCycle s) (out s).

Definition set_forward (v : bool) (s : state) : state :=
  mkState (displayIsOn s) (pwmUpdateNeeded s) (abOld s) (count s) (lastpressed s) v
          (stopped s) (speed2x s) (speedFull s) (dutyCycle s) (out s).

Definition set_speed2x (v : bool) (s : state) : state :=
  mkState (displayIsOn s) (pwmUpdateNeeded s) (abOld s) (count s) (lastpressed s) (forward s)
          (stopped s) v (speedFull s) (dutyCycle s) (out s).

Definition set_speedFull (v : bool) (s : state) : state :=
  mkState (displayIsOn s) (pwmUpdateNeeded s) (abOld s) (count s) (lastpressed s) (forward s)
          (stopped s) (speed2x s) v (dutyCycle s) (out s).

Definition set_dutyCycle (v : F32.float) (s : state) : state :=
  mkState (displayIsOn s) (pwmUpdateNeeded s) (abOld s) (count s) (lastpressed s) (forward s)
          (stopped s) (speed2x s) (speedFull s) v (out s).

Definition emit (e : event) (s : state) : state :=
  mkState (displayIsOn s) (pwmUpdateNeeded s) (abOld s) (count s) (lastpressed s) (forward s)
          (stopped s) (speed2x s) (speedFull s) (dutyCycle s) (out s ++ [e]).

(** ** The KY-040 quadrature decoder *)

Definition upMask : Z := 0x66.
Definition downMask : Z := 0x99.

(** [(digitalRead(KY40_PIN_A) << 1) | digitalRead(KY40_PIN_B)], stored in a
    [byte]; [a] and [b] are the two levels read. *)
Definition abNew (a b : bool) : Z :=
  Avr.wrap_byte (Z.lor (Z.shiftl (Z.b2z a) 1) (Z.b2z b)).

Definition criterion (a b : bool) (s : state) : Z :=
  Avr.wrap_byte (Z.lxor (abNew a b) (abOld s)).

(** [upMask & (1 << (2 * abOld + abNew / 2))] as a condition. *)
Definition goes_up (a b : bool) (s : state) : bool :=
  negb (Z.land upMask (Z.shiftl 1 (2 * abOld s + abNew a b / 2)) =? 0).

Definition pinChangeISR (a b : bool) (s : state) : state :=
  let s1 :=
    if (criterion a b s =? 1) || (criterion a b s =? 2) then
      if goes_up a b s
      then set_count (Avr.wrap_int (count s + 1)) s
      else set_count (Avr.wrap_int (count s - 1)) s
    else s in
  let s2 := set_abOld (abNew a b) s1 in
  let s3 := set_pwmUpdateNeeded true s2 in
  let s4 := if count s3 <? 0 then set_count 0 s3 else s3 in
  if count s4 >? COUNTLIMIT then set_count COUNTLIMIT s4 else s4.

(** A sequence of interrupts, each with the pin levels it reads. *)
Definition run_isr (inputs : list (bool * bool)) (s : state) : state :=
  fold_left (fun st ab => pinChangeISR (fst ab) (snd ab) st) inputs s.

(** One turn of the knob in the counting-up direction, starting with both
    pins low: A rises, B rises, A falls, B falls. *)
Definition upCycle : list (bool * bool) :=
  [(true, false); (true, true); (false, true); (false, false)].

Fixpoint repeat_seq {A : Type} (n : nat) (l : list A) : list A :=
  match n with
  | O => []
  | S k => l ++ repeat_seq k l
  end.

(** ** The seven segment display *)

(** Segment patterns of the digits 0 to 9 (common anode: 0 lights a segment,
    bit 7 is the decimal dot). *)
Definition bits : list Z :=
  [ 0xC0 (* 0b11000000 *); 0xF9 (* 0b11111001 *); 0xA4 (* 0b10100100 *);
    0xB0 (* 0b10110000 *); 0x99 (* 0b10011001 *); 0x92 (* 0b10010010 *);
    0x82 (* 0b10000010 *); 0xF8 (* 0b11111000 *); 0x80 (* 0b10000000 *);
    0x90 (* 0b10010000 *) ].

(** Select lines of the four digits, leftmost first. *)
Definition displays : list Z := [0x08; 0x04; 0x02; 0x01].

(** [table[i]] for a [byte] index; [None] past the end. *)
Definition at_index (table : list Z) (i : Z) : option Z :=
  nth_error table (Z.to_nat i).

(** Statements in sequence. *)
Definition andThen (f g : state -> state) : state -> state :=
  fun s => g (f s).
Infix ";;" := andThen (at level 61, left associativity).

Definition displayNumber (number digit : Z) (withDecimalDot : bool) : state -> state :=
  fun s =>
    if displayIsOn s then
      ( emit (DigitalWrite RCLK_PIN LOW) ;;
        emit (ShiftOut DIO_PIN SCLK_PIN
                (if withDecimalDot
                 then option_map (fun v => Z.land v 0x7F) (at_index bits number)
                 else at_index bits number)) ;;
        emit (ShiftOut DIO_PIN SCLK_PIN (at_index displays digit)) ;;
        emit (DigitalWrite RCLK_PIN HIGH) ;;
        emit (Delay 1) ) s
    else
      ( emit (DigitalWrite RCLK_PIN LOW) ;;
        emit (ShiftOut DIO_PIN SCLK_PIN (Some 0xFF)) ;;
        emit (ShiftOut DIO_PIN SCLK_PIN (at_index displays digit)) ;;
        emit (DigitalWrite RCLK_PIN HIGH) ;;
        emit (Delay 1) ) s.

(** The four [int] digits [display] computes from a fraction. *)
Definition display_digits (percentage : F32.float) : list Z :=
  let firstDigit := F32.to_int (F32.mul percentage (F32.of_int 10)) in
  let secondDigit :=
    F32.to_int (F32.sub (F32.mul percentage (F32.of_int 100))
                        (F32.of_int (Avr.wrap_int (firstDigit * 10)))) in
  let thirdDigit :=
    F32.to_int (F32.sub (F32.mul percentage (F32.of_int 1000))
                        (F32.of_int (Avr.wrap_int (Avr.wrap_int (firstDigit * 100)
                                                   + Avr.wrap_int (secondDigit * 10))))) in
  let fourthDigit :=
    F32.to_int (F32.sub (F32.mul percentage (F32.of_int 10000))
                        (F32.of_int (Avr.wrap_int (Avr.wrap_int (Avr.wrap_int (firstDigit * 1000)
                                                                 + Avr.wrap_int (secondDigit * 100))
                                                   + Avr.wrap_int (thirdDigit * 10))))) in
  [firstDigit; secondDigit; thirdDigit; fourthDigit].

(** The body of the [for] loop of [display], from index [i] on; [digits] is
    what is left of the [byte] array. *)
Fixpoint display_from (i : Z) (digits : list Z) : state -> state :=
  match digits with
  | [] => fun s => s
  | d :: rest => displayNumber d i (i =? 1) ;; display_from (i + 1) rest
  end.

Definition display (percentage : F32.float) : state -> state :=
  display_from 0 (map Avr.wrap_byte (display_digits percentage)).

(** ** The push button of the encoder

    [button] is the level read on the switch pin, [now] and [now'] the two
    values [millis()] returns (the second call is made only when the display
    is toggled). *)
Definition checkKYbutton (button : bool) (now now' : Z) : state -> state :=
  fun s =>
    if (Avr.wrap_ulong (now - lastpressed s) >? 500) && negb button then
      (set_displayIsOn (negb (displayIsOn s)) ;; set_lastpressed (Avr.wrap_long now')) s
    else s.

(** ** The main loop *)

(** The levels read on the four membrane buttons, key 1 to key 4
    ([membraneButtonStatus[0]] to [[3]]); 1 is not pressed. *)
Record buttons : Type := mkButtons {
  key1 : bool; key2 : bool; key3 : bool; key4 : bool
}.

Definition forward_of (k : buttons) : bool :=
  Z.b2z (key1 k) + Z.b2z (key2 k) >=? 2.
Definition speed2x_of (k : buttons) : bool :=
  Z.b2z (key2 k) + Z.b2z (key3 k) <? 2.
Definition speedFull_of (k : buttons) : bool :=
  Z.b2z (key1 k) + Z.b2z (key4 k) <? 2.

(** Lines 222 to 239: the three intents and the change detection. *)
Definition pollButtons (k : buttons) : state -> state :=
  fun s =>
    let oldForward := forward s in
    let oldSpeed2x := speed2x s in
    let oldSpeedFull := speedFull s in
    let s1 := (set_forward (forward_of k) ;; set_speed2x (speed2x_of k) ;;
               set_speedFull (speedFull_of k)) s in
    if negb (eqb (forward s1) oldForward) || negb (eqb (speed2x s1) oldSpeed2x)
       || negb (eqb (speedFull s1) oldSpeedFull)
    then set_pwmUpdateNeeded true s1
    else s1.

(** [((float) count*100) / ((float)COUNTLIMIT)] *)
Definition duty_of_count (c : Z) : F32.float :=
  F32.div (F32.mul (F32.of_int c) (F32.of_int 100)) (F32.of_int COUNTLIMIT).

(** [int pwm_duty_cycle = (dutyCycle / 100) * 1023;] *)
Definition base_duty (d : F32.float) : Z :=
  F32.to_int (F32.mul (F32.div d (F32.of_int 100)) (F32.of_int 1023)).

Definition writeDirection : state -> state :=
  fun s =>
    if forward s then
      (emit (DigitalWrite MOTOR_A1_PIN LOW) ;; emit (DigitalWrite MOTOR_B1_PIN HIGH)) s
    else if negb (stopped s) then
      (emit (DigitalWrite MOTOR_A1_PIN HIGH) ;; emit (DigitalWrite MOTOR_B1_PIN LOW)) s
    else
      (emit (DigitalWrite MOTOR_A1_PIN LOW) ;; emit (DigitalWrite MOTOR_B1_PIN LOW)) s.

(** The value of [pwm_duty_cycle] handed to [Timer1.pwm]. *)
Definition pwm_duty_cycle (s : state) : Z :=
  let base := base_duty (dutyCycle s) in
  if speed2x s then Avr.wrap_int (base * 2)
  else if speedFull s then 1023
  else base.

(** Lines 241 to 268: the output stage. *)
Definition outputStage : state -> state :=
  fun s =>
    if pwmUpdateNeeded s then
      ( set_pwmUpdateNeeded false ;;
        writeDirection ;;
        (fun s' => set_dutyCycle (duty_of_count (count s')) s') ;;
        (fun s' => emit (TimerPwm PWM_OUTPUT_PIN (pwm_duty_cycle s')) s') ) s
    else s.

Definition displayStage : state -> state :=
  fun s => display (F32.div (dutyCycle s) (F32.of_int 100)) s.

(** What one iteration of [loop] reads. *)
Record loopInput : Type := mkLoopInput {
  kyButton : bool;
  millis1 : Z;
  millis2 : Z;
  membrane : buttons
}.

Definition loop (i : loopInput) : state -> state :=
  checkKYbutton (kyButton i) (millis1 i) (millis2 i) ;;
  pollButtons (membrane i) ;;
  outputStage ;;
  displayStage.

Definition released : buttons := mkButtons true true true true.
Definition idle (now : Z) : loopInput := mkLoopInput true now now released.

(** ** What the hardware sees *)

(** The last level written to [pin], if any. *)
Fixpoint pin_level (pin : Z) (evs : list event) : option bool :=
  match evs with
  | [] => None
  | e :: rest =>
      match pin_level pin rest with
      | Some l => Some l
      | None =>
          match e with
          | DigitalWrite p l => if p =? pin then Some l else None
          | _ => None
          end
      end
  end.

(** The duties handed to [Timer1.pwm], oldest first. *)
Fixpoint pwm_duties (evs : list event) : list Z :=
  match evs with
  | [] => []
  | TimerPwm _ d :: rest => d :: pwm_duties rest
  | _ :: rest => pwm_duties rest
  end.

(** The last duty handed to [Timer1.pwm], if any. *)
Definition emitted_pwm (s : state) : option Z :=
  last (map Some (pwm_duties (out s))) None.

(** The levels of the two direction pins of the motor driver. *)
Definition direction (s : state) : option bool * option bool :=
  (pin_level MOTOR_A1_PIN (out s), pin_level MOTOR_B1_PIN (out s)).

(** The bytes shifted out to the display, oldest first, two per digit:
    segments, then select line. *)
Fixpoint shifted (evs : list event) : list (option Z) :=
  match evs with
  | [] => []
  | ShiftOut _ _ v :: rest => v :: shifted rest
  | _ :: rest => shifted rest
  end.

(** The outputs that precede the first call of [Timer1.pwm]. *)
Fixpoint before_first_pwm (evs : list event) : list event :=
  match evs with
  | [] => []
  | TimerPwm _ _ :: _ => []
  | e :: rest => e :: before_first_pwm rest
  end.

(** ** The whole system

    The main loop runs its four stages in order, for ever; the interrupt may
    fire between any two of them. *)

Inductive stage : Type := AtCheckKY | AtButtons | AtOutput | AtDisplay.

Inductive step : stage * state -> stage * state -> Prop :=
| step_interrupt (p : stage) (s : state) (a b : bool) :
    step (p, s) (p, pinChangeISR a b s)
| step_checkKY (s : state) (button : bool) (now now' : Z) :
    step (AtCheckKY, s) (AtButtons, checkKYbutton button now now' s)
| step_buttons (s : state) (k : buttons) :
    step (AtButtons, s) (AtOutput, pollButtons k s)
| step_output (s : state) :
    step (AtOutput, s) (AtDisplay, outputStage s)
| step_display (s : state) :
    step (AtDisplay, s) (AtCheckKY, displayStage s).

Inductive reachable : stage * state -> Prop :=
| reachable_init : reachable (AtCheckKY, init)
| reachable_step (c c' : stage * state) :
    reachable c -> step c c' -> reachable c'.

(** ** Auxiliary definitions of the proofs *)

Definition count_ok (s : state) : Prop := 0 <= count s <= COUNTLIMIT.

(** The two clamps at the end of the handler. *)
Definition clamp (c : Z) : Z :=
  let c' := if c <? 0 then 0 else c in
  if c' >? COUNTLIMIT then COUNTLIMIT else c'.

(** The globals, without the outputs. *)
Definition globals (s : state) :=
  (displayIsOn s, pwmUpdateNeeded s, abOld s, count s, lastpressed s,
   forward s, stopped s, speed2x s, speedFull s, dutyCycle s).

(** The levels [writeDirection] writes to the pins INA and INB. *)
Definition direction_levels (s : state) : bool * bool :=
  if forward s then (LOW, HIGH)
  else if negb (stopped s) then (HIGH, LOW)
  else (LOW, LOW).

(** The outputs of [displayNumber]: the latch pin, the shift register, the
    delay. *)
Definition is_display_event (e : event) : bool :=
  match e with
  | DigitalWrite p _ => p =? RCLK_PIN
  | ShiftOut _ _ _ => true
  | Delay _ => true
  | TimerPwm _ _ => false
  end.

(** The decimal dot of a segment byte is lit when bit 7 is 0. *)
Definition dot_lit (v : option Z) : bool :=
  match v with
  | Some b => negb (Z.testbit b 7)
  | None => false
  end.

(** The segment bytes among the bytes shifted out: every other one. *)
Fixpoint segments (bytes : list (option Z)) : list (option Z) :=
  match bytes with
  | seg :: _ :: rest => seg :: segments rest
  | _ => []
  end.

(** [p] holds of 0, 1, ..., [n - 1]. *)
Fixpoint all_below (n : nat) (p : Z -> bool) : bool :=
  match n with
  | O => true
  | S k => p (Z.of_nat k) && all_below k p
  end.

(** The invariant of the direction logic: [stopped] is false, and the
    direction pins are either not written yet (then no PWM was started
    either), or show forward, or reverse. *)
Definition never_stopped (s : state) : Prop :=
  stopped s = false
  /\ ((direction s = (None, None) /\ pwm_duties (out s) = [])
      \/ direction s = (Some LOW, Some HIGH)
      \/ direction s = (Some HIGH, Some LOW)).

(** One turn of the knob in the counting-down direction, starting with both
    pins low: B rises, A rises, B falls, A falls. *)
Definition downCycle : list (bool * bool) :=
  [(false, true); (true, true); (true, false); (false, false)].

(** Exactly one of the two pin levels differs. *)
Definition single_bit_change (a0 b0 a b : bool) : bool :=
  xorb (xorb a0 a) (xorb b0 b).

(** The number a row of decimal digits shows, leftmost first. *)
Definition displayed_number (digits : list Z) : Z :=
  fold_left (fun acc d => 10 * acc + d) digits 0.

(** The fraction [loop] hands to [display] once the output stage has run on
    count [c]. *)
Definition fraction_of_count (c : Z) : F32.float :=
  F32.div (duty_of_count c) (F32.of_int 100).

(** The duty the output stage hands to the timer for a count and the two
    speed intents. *)
Definition duty_for (c : Z) (s2x sfull : bool) : Z :=
  let base := base_duty (duty_of_count c) in
  if s2x then Avr.wrap_int (base * 2)
  else if sfull then 1023
  else base.

(** Whether polling the buttons [k] changes one of the three intents. *)
Definition intents_change (k : buttons) (s : state) : bool :=
  negb (eqb (forward_of k) (forward s))
  || negb (eqb (speed2x_of k) (speed2x s))
  || negb (eqb (speedFull_of k) (speedFull s)).

(** The outputs are up to date: with the flag clear, what the motor driver
    and the timer last got is what the present count and intents ask for. *)
Definition outputs_current (s : state) : Prop :=
  pwmUpdateNeeded s = false ->
  emitted_pwm s = Some (duty_for (count s) (speed2x s) (speedFull s))
  /\ dutyCycle s = duty_of_count (count s)
  /\ direction s = (Some (fst (direction_levels s)), Some (snd (direction_levels s))).

(** What the handler adds to the count, before clamping, when the last levels
    stored are [old] and it reads [a] and [b]. *)
Definition count_delta (old : Z) (a b : bool) : Z :=
  let crit := Avr.wrap_byte (Z.lxor (abNew a b) old) in
  if (crit =? 1) || (crit =? 2) then
    if negb (Z.land upMask (Z.shiftl 1 (2 * old + abNew a b / 2)) =? 0) then 1 else -1
  else 0.

(** The levels of the two direction pins after the outputs [evs]: the pins
    at the moment the last of [evs] has been sent. *)
Definition direction_of_log (evs : list event) : option bool * option bool :=
  (pin_level MOTOR_A1_PIN evs, pin_level MOTOR_B1_PIN evs).

(** The shape of every output log of the sketch: runs of display outputs,
    and the three outputs of an output stage whose direction is forward or
    reverse, INA written before INB. *)
Inductive sketch_log : list event -> Prop :=
| log_nil : sketch_log []
| log_display (l evs : list event) :
    sketch_log l -> forallb is_display_event evs = true -> sketch_log (l ++ evs)
| log_output (l : list event) (a : bool) (d : Z) :
    sketch_log l ->
    sketch_log (l ++ [DigitalWrite MOTOR_A1_PIN a;
                      DigitalWrite MOTOR_B1_PIN (negb a);
                      TimerPwm PWM_OUTPUT_PIN d]).

(** What holds of the direction pins after each prefix of a log: once
    written they show forward or reverse, except that both are LOW right
    after a write of LOW to INA that the write of HIGH to INB follows. *)
Definition low_only_between_writes (l : list event) : Prop :=
  forall k : nat,
    direction_of_log (firstn k l) = (Some LOW, Some LOW) ->
    (exists l', firstn k l = l' ++ [DigitalWrite MOTOR_A1_PIN LOW])
    /\ nth_error l k = Some (DigitalWrite MOTOR_B1_PIN HIGH).

(** * Properties *)

(** ** Machine integers *)

Lemma wrap_int_range z : Avr.int_range (Avr.wrap_int z).
Proof.
  unfold Avr.int_range, Avr.wrap_int.
  pose proof (Z.mod_pos_bound (z + 32768) 65536 eq_refl). lia.
Qed.

Lemma wrap_int_id z : Avr.int_range z -> Avr.wrap_int z = z.
Proof.
  unfold Avr.int_range, Avr.wrap_int. intros H.
  rewrite Z.mod_small by lia. lia.
Qed.

(** ** The quadrature decoder *)

(** The comment of the source, "upMask = ~downMask", on the eight bits of the
    table. *)
Lemma upMask_complements_downMask :
  Z.lxor upMask downMask = 0xFF /\ Z.land upMask downMask = 0.
Proof. split; reflexivity. Qed.

Lemma clamp_range c : 0 <= clamp c <= COUNTLIMIT.
Proof.
  unfold clamp, COUNTLIMIT. rewrite !Z.gtb_ltb.
  destruct (Z.ltb_spec c 0);
    match goal with |- context [?x <? ?y] => destruct (Z.ltb_spec x y) end; lia.
Qed.

Lemma clamp_id c : 0 <= c <= COUNTLIMIT -> clamp c = c.
Proof.
  unfold clamp, COUNTLIMIT. rewrite !Z.gtb_ltb. intros H.
  destruct (Z.ltb_spec c 0);
    match goal with |- context [?x <? ?y] => destruct (Z.ltb_spec x y) end; lia.
Qed.

(** The count the handler leaves, in one equation. *)
Lemma pinChangeISR_count a b s :
  count (pinChangeISR a b s) =
  clamp (if (criterion a b s =? 1) || (criterion a b s =? 2)
         then if goes_up a b s then Avr.wrap_int (count s + 1)
              else Avr.wrap_int (count s - 1)
         else count s).
Proof.
  unfold pinChangeISR, clamp.
  destruct ((criterion a b s =? 1) || (criterion a b s =? 2));
    [destruct (goes_up a b s)|]; cbn [count set_count set_abOld set_pwmUpdateNeeded];
    match goal with |- context [?x <? 0] => destruct (x <? 0) end;
    cbn [count abOld set_count set_abOld set_pwmUpdateNeeded];
    match goal with |- context [?x >? ?y] => destruct (x >? y) end;
    cbn [count abOld set_count set_abOld set_pwmUpdateNeeded];
    reflexivity.
Qed.

Lemma pinChangeISR_abOld a b s : abOld (pinChangeISR a b s) = abNew a b.
Proof.
  unfold pinChangeISR.
  destruct ((criterion a b s =? 1) || (criterion a b s =? 2));
    [destruct (goes_up a b s)|]; cbn [count set_count set_abOld set_pwmUpdateNeeded];
    match goal with |- context [?x <? 0] => destruct (x <? 0) end;
    cbn [count abOld set_count set_abOld set_pwmUpdateNeeded];
    match goal with |- context [?x >? ?y] => destruct (x >? y) end;
    cbn [count abOld set_count set_abOld set_pwmUpdateNeeded];
    reflexivity.
Qed.

Lemma pinChangeISR_count_ok a b s : count_ok (pinChangeISR a b s).
Proof. unfold count_ok. rewrite pinChangeISR_count. apply clamp_range. Qed.

Lemma run_isr_app l1 l2 s : run_isr (l1 ++ l2) s = run_isr l2 (run_isr l1 s).
Proof. unfold run_isr. apply fold_left_app. Qed.

Lemma run_isr_count_ok inputs : forall s, count_ok s -> count_ok (run_isr inputs s).
Proof.
  induction inputs as [|[a b] rest IH]; intros s Hs; [exact Hs|].
  cbn. apply IH, pinChangeISR_count_ok.
Qed.

Lemma init_count_ok : count_ok init.
Proof. unfold count_ok, init, COUNTLIMIT. cbn. lia. Qed.

(** C1.  Whatever levels the encoder pins show at each interrupt, and however
    many interrupts there are, the count lies in [0, COUNTLIMIT] each time
    the handler returns: this holds after every prefix [firstn k inputs] of
    every sequence of interrupts run from the initial state. *)
Theorem count_always_in_range (inputs : list (bool * bool)) (k : nat) :
  0 <= count (run_isr (firstn k inputs) init) <= COUNTLIMIT
  /\ COUNTLIMIT = 2046.
Proof.
  split; [|reflexivity].
  apply (run_isr_count_ok (firstn k inputs) init init_count_ok).
Qed.

(** C2.  An interrupt whose transition is not a single-bit change (the
    criterion is neither 1 nor 2) leaves a count that was in range as it
    was. *)
Theorem invalid_transition_keeps_count (a b : bool) (s : state) :
  0 <= count s <= COUNTLIMIT ->
  criterion a b s <> 1 ->
  criterion a b s <> 2 ->
  count (pinChangeISR a b s) = count s.
Proof.
  intros Hc H1 H2. rewrite pinChangeISR_count.
  apply Z.eqb_neq in H1. apply Z.eqb_neq in H2. rewrite H1, H2. cbn.
  apply clamp_id, Hc.
Qed.

Lemma invalid_transition_keeps_count_witness :
  criterion true true init = 3
  /\ count (pinChangeISR true true init) = count init.
Proof.
  split; [reflexivity|].
  apply (invalid_transition_keeps_count true true init);
    [cbn; unfold COUNTLIMIT; lia | cbn; lia | cbn; lia].
Defined.

(** One step of the counting-up rotation, 00 -> 10 -> 11 -> 01 -> 00, adds
    one when there is room below the limit. *)
Lemma up_step a b s :
  (abOld s = 0 /\ a = true /\ b = false) \/ (abOld s = 2 /\ a = true /\ b = true) \/
  (abOld s = 3 /\ a = false /\ b = true) \/ (abOld s = 1 /\ a = false /\ b = false) ->
  0 <= count s < COUNTLIMIT ->
  count (pinChangeISR a b s) = count s + 1.
Proof.
  intros Hab Hc. rewrite pinChangeISR_count. unfold criterion, goes_up.
  assert (Hw : Avr.wrap_int (count s + 1) = count s + 1)
    by (apply wrap_int_id; unfold Avr.int_range, COUNTLIMIT in *; lia).
  destruct Hab as [(-> & -> & ->)|[(-> & -> & ->)|[(-> & -> & ->)|(-> & -> & ->)]]];
    cbn; rewrite Hw; apply clamp_id; lia.
Qed.

Lemma up_cycle_prefix (k : nat) (s : state) :
  abOld s = 0 -> 0 <= count s -> count s + Z.of_nat k <= COUNTLIMIT -> (k <= 4)%nat ->
  count (run_isr (firstn k upCycle) s) = count s + Z.of_nat k
  /\ (k = 4%nat -> abOld (run_isr (firstn k upCycle) s) = 0).
Proof.
  intros Hab H0 Hroom Hk.
  set (s1 := pinChangeISR true false s).
  set (s2 := pinChangeISR true true s1).
  set (s3 := pinChangeISR false true s2).
  set (s4 := pinChangeISR false false s3).
  assert (A1 : abOld s1 = 2) by apply pinChangeISR_abOld.
  assert (A2 : abOld s2 = 3) by apply pinChangeISR_abOld.
  assert (A3 : abOld s3 = 1) by apply pinChangeISR_abOld.
  assert (A4 : abOld s4 = 0) by apply pinChangeISR_abOld.
  assert (C1 : (1 <= k)%nat -> count s1 = count s + 1)
    by (intros; apply up_step; [tauto | lia]).
  assert (C2 : (2 <= k)%nat -> count s2 = count s + 2)
    by (intros; unfold s2; rewrite up_step; [rewrite C1; lia | tauto | rewrite C1; lia]).
  assert (C3 : (3 <= k)%nat -> count s3 = count s + 3)
    by (intros; unfold s3; rewrite up_step; [rewrite C2; lia | tauto | rewrite C2; lia]).
  assert (C4 : (4 <= k)%nat -> count s4 = count s + 4)
    by (intros; unfold s4; rewrite up_step; [rewrite C3; lia | tauto | rewrite C3; lia]).
  destruct k as [|[|[|[|[|k]]]]]; cbn [firstn upCycle run_isr fold_left fst snd];
    fold s1; try fold s2; try fold s3; try fold s4;
    (split; [first [rewrite C4 by lia | rewrite C3 by lia | rewrite C2 by lia
                   | rewrite C1 by lia | idtac]; lia
            | intros E; try discriminate E; try exact A4]).
Qed.

Lemma firstn_repeat_seq_succ (k N : nat) :
  firstn k (repeat_seq (S N) upCycle) =
  firstn k upCycle ++ firstn (k - 4) (repeat_seq N upCycle).
Proof. cbn [repeat_seq]. rewrite firstn_app. reflexivity. Qed.

(** The first [k] transitions of the counting-up rotation add [k], when
    there is room for them below the limit. *)
Lemma up_rotation_prefix (N k : nat) : forall s : state,
  abOld s = 0 ->
  0 <= count s ->
  count s + Z.of_nat k <= COUNTLIMIT ->
  (k <= 4 * N)%nat ->
  count (run_isr (firstn k (repeat_seq N upCycle)) s) = count s + Z.of_nat k.
Proof.
  revert k. induction N as [|N IH]; intros k s Hab H0 Hroom Hk.
  - assert (k = 0%nat) by lia. subst k. cbn. lia.
  - rewrite firstn_repeat_seq_succ, run_isr_app.
    destruct (Nat.le_gt_cases k 4) as [Hle|Hgt].
    + replace (k - 4)%nat with 0%nat by lia. cbn [firstn run_isr fold_left].
      apply up_cycle_prefix; assumption.
    + rewrite (firstn_all2 (n := k) upCycle) by (cbn; lia).
      destruct (up_cycle_prefix 4 s Hab H0 ltac:(lia) (le_n 4)) as [Hc Ha].
      cbn [firstn upCycle] in Hc, Ha. fold upCycle in Hc, Ha.
      rewrite IH; [lia | auto | lia | lia | lia].
Qed.

(** C3, as the code has it.  Fed [N] times the four-transition sequence
    A, B, A, B of the counting-up rotation, starting in phase with it (both
    pins last seen low) and with room for all of it below the limit, the
    decoder adds one per transition: after the first [k] transitions the
    count has grown by exactly [k], hence by [4 * N] after the whole. *)
Theorem up_rotation_adds_one_per_transition (N k : nat) (s : state) :
  abOld s = 0 ->
  0 <= count s ->
  count s + 4 * Z.of_nat N <= COUNTLIMIT ->
  (k <= 4 * N)%nat ->
  count (run_isr (firstn k (repeat_seq N upCycle)) s) = count s + Z.of_nat k
  /\ count (run_isr (repeat_seq N upCycle) s) = count s + 4 * Z.of_nat N.
Proof.
  intros Hab H0 Hroom Hk.
  split; [apply up_rotation_prefix; [assumption | assumption | lia | assumption]|].
  assert (Hlen : forall n, length (repeat_seq n upCycle) = (4 * n)%nat).
  { induction n as [|n IHn]; [reflexivity|].
    cbn [repeat_seq]. rewrite length_app, IHn. cbn [length upCycle]. lia. }
  rewrite <- (firstn_all (repeat_seq N upCycle)), Hlen.
  rewrite up_rotation_prefix; [lia | assumption | assumption | lia | lia].
Qed.

Lemma up_rotation_adds_one_per_transition_witness :
  count (run_isr (firstn 8 (repeat_seq 2 upCycle)) init) = count init + 8.
Proof.
  refine (proj1 (up_rotation_adds_one_per_transition 2 8 init _ _ _ _));
    [reflexivity | cbn; lia | cbn; unfold COUNTLIMIT; lia | lia].
Defined.

(** C3, as stated, fails: one pass of the sequence A, B, A, B is four valid
    transitions and adds four to the count, 157 to 161, not one. *)
Lemma one_pass_adds_four_not_one :
  count (run_isr (repeat_seq 1 upCycle) init) = count init + 4
  /\ ~ (forall N : nat,
          count init + Z.of_nat N <= COUNTLIMIT ->
          count (run_isr (repeat_seq N upCycle) init) = count init + Z.of_nat N).
Proof.
  split; [reflexivity|].
  intros H. specialize (H 1%nat).
  assert (Hroom : count init + Z.of_nat 1 <= COUNTLIMIT)
    by (cbn; unfold COUNTLIMIT; lia).
  apply H in Hroom. vm_compute in Hroom. discriminate Hroom.
Qed.

(** ** The membrane buttons *)

Lemma displayNumber_globals n d dot s : globals (displayNumber n d dot s) = globals s.
Proof. unfold displayNumber. destruct (displayIsOn s); reflexivity. Qed.

Lemma display_from_globals digits : forall i s, globals (display_from i digits s) = globals s.
Proof.
  induction digits as [|d rest IH]; intros i s; [reflexivity|].
  cbn [display_from]. unfold andThen. rewrite IH. apply displayNumber_globals.
Qed.

Lemma displayStage_globals s : globals (displayStage s) = globals s.
Proof. apply display_from_globals. Qed.

Lemma globals_forward s s' : globals s = globals s' -> forward s = forward s'.
Proof. unfold globals. intros H. injection H. auto. Qed.

Lemma writeDirection_forward s : forward (writeDirection s) = forward s.
Proof.
  unfold writeDirection. destruct (forward s) eqn:F; [assumption|].
  destruct (negb (stopped s)); assumption.
Qed.

Lemma outputStage_forward s : forward (outputStage s) = forward s.
Proof.
  unfold outputStage. destruct (pwmUpdateNeeded s); [|reflexivity].
  unfold andThen.
  cbn [forward emit set_dutyCycle]. rewrite writeDirection_forward. reflexivity.
Qed.

Lemma pollButtons_forward k s : forward (pollButtons k s) = forward_of k.
Proof.
  unfold pollButtons, andThen.
  match goal with |- context [if ?c then _ else _] => destruct c end; reflexivity.
Qed.

Lemma forward_of_spec k : forward_of k = key1 k && key2 k.
Proof. unfold forward_of. destruct (key1 k), (key2 k); reflexivity. Qed.

(** C4, as the code has it.  After the buttons are polled, and at the end of
    the loop iteration, [forward] is true exactly when the raw levels of
    buttons 1 and 2 are both 1: pressing either of them alone already makes
    it false. *)
Theorem forward_iff_both_released (i : loopInput) (s : state) :
  forward (pollButtons (membrane i) s) = key1 (membrane i) && key2 (membrane i)
  /\ forward (loop i s) = key1 (membrane i) && key2 (membrane i).
Proof.
  split.
  - rewrite pollButtons_forward. apply forward_of_spec.
  - unfold loop, andThen.
    rewrite (globals_forward _ _ (displayStage_globals _)).
    rewrite outputStage_forward, pollButtons_forward. apply forward_of_spec.
Qed.

(** C4, as stated, fails: with button 1 pressed (raw level 0) and button 2
    released (raw level 1), [forward] is false. *)
Lemma one_button_pressed_reverses :
  forward (pollButtons (mkButtons false true true true) init) = false
  /\ ~ (forall k : buttons,
          forward (pollButtons k init) = false ->
          key1 k = false /\ key2 k = false).
Proof.
  split; [reflexivity|].
  intros H. specialize (H (mkButtons false true true true) eq_refl).
  destruct H as [_ H]. discriminate H.
Qed.

(** ** Outputs of the display *)

Lemma pin_level_app pin l1 l2 :
  pin_level pin (l1 ++ l2) =
  match pin_level pin l2 with
  | Some l => Some l
  | None => pin_level pin l1
  end.
Proof.
  induction l1 as [|e l1 IH]; cbn [app pin_level].
  - destruct (pin_level pin l2); reflexivity.
  - rewrite IH. destruct (pin_level pin l2); reflexivity.
Qed.

Lemma pin_level_display pin evs :
  forallb is_display_event evs = true -> pin <> RCLK_PIN -> pin_level pin evs = None.
Proof.
  intros H Hp. induction evs as [|e evs IH]; [reflexivity|].
  cbn [forallb] in H. apply andb_true_iff in H. destruct H as [He Hrest].
  cbn [pin_level]. rewrite (IH Hrest).
  destruct e as [p l| | |]; try reflexivity.
  cbn [is_display_event] in He. apply Z.eqb_eq in He. subst p.
  destruct (Z.eqb_spec RCLK_PIN pin); [congruence | reflexivity].
Qed.

Lemma pwm_duties_display evs :
  forallb is_display_event evs = true -> pwm_duties evs = [].
Proof.
  induction evs as [|e evs IH]; [reflexivity|].
  cbn [forallb]. intros H. apply andb_true_iff in H. destruct H as [He Hrest].
  destruct e; cbn in He |- *; try discriminate He; auto.
Qed.

(** [display] only adds outputs of the display. *)
Lemma displayNumber_out n d dot s :
  exists evs, out (displayNumber n d dot s) = out s ++ evs
              /\ forallb is_display_event evs = true.
Proof.
  unfold displayNumber, andThen, emit.
  destruct (displayIsOn s); cbn [out]; rewrite <- !app_assoc; cbn [app];
    eexists; (split; [reflexivity|]); reflexivity.
Qed.

Lemma display_from_out digits : forall i s,
  exists evs, out (display_from i digits s) = out s ++ evs
              /\ forallb is_display_event evs = true.
Proof.
  induction digits as [|d rest IH]; intros i s.
  - exists []. rewrite app_nil_r. split; reflexivity.
  - cbn [display_from]. unfold andThen.
    destruct (IH (i + 1) (displayNumber d i (i =? 1) s)) as (e2 & O2 & F2).
    destruct (displayNumber_out d i (i =? 1) s) as (e1 & O1 & F1).
    exists (e1 ++ e2). rewrite O2, O1, <- app_assoc. split; [reflexivity|].
    rewrite forallb_app, F1, F2. reflexivity.
Qed.

Lemma displayStage_out s :
  exists evs, out (displayStage s) = out s ++ evs
              /\ forallb is_display_event evs = true.
Proof. apply display_from_out. Qed.

(** ** The output stage *)

Lemma all_below_spec (p : Z -> bool) (n : nat) :
  all_below n p = true -> forall c, 0 <= c < Z.of_nat n -> p c = true.
Proof.
  induction n as [|n IH]; intros H c Hc; [lia|].
  cbn [all_below] in H. apply andb_true_iff in H. destruct H as [Hn Hrest].
  destruct (Z.eq_dec c (Z.of_nat n)) as [->|Hne]; [exact Hn|].
  apply IH; [exact Hrest | lia].
Qed.

(** The base duty of a count in range fits the resolution of the timer
    (checked on each of the 2047 counts). *)
Lemma base_duty_range c :
  0 <= c <= COUNTLIMIT -> 0 <= base_duty (duty_of_count c) <= 1023.
Proof.
  intros Hc.
  assert (H : all_below 2047
                (fun c => let b := base_duty (duty_of_count c) in
                          (0 <=? b) && (b <=? 1023)) = true)
    by (vm_compute; reflexivity).
  pose proof (all_below_spec _ _ H c) as Hb. cbv zeta in Hb.
  unfold COUNTLIMIT in Hc.
  destruct (andb_prop _ _ (Hb ltac:(lia))) as [H0 H1].
  apply Z.leb_le in H0. apply Z.leb_le in H1. lia.
Qed.

(** What the output stage does when the flag is set. *)
Lemma outputStage_run s :
  pwmUpdateNeeded s = true ->
  outputStage s =
  mkState (displayIsOn s) false (abOld s) (count s) (lastpressed s) (forward s)
          (stopped s) (speed2x s) (speedFull s) (duty_of_count (count s))
          (out s ++ [DigitalWrite MOTOR_A1_PIN (fst (direction_levels s));
                     DigitalWrite MOTOR_B1_PIN (snd (direction_levels s));
                     TimerPwm PWM_OUTPUT_PIN
                       (pwm_duty_cycle (set_dutyCycle (duty_of_count (count s)) s))]).
Proof.
  intros H. unfold outputStage. rewrite H.
  destruct s as [on upd ab c lp fw st s2 sf dc o].
  destruct fw; [|destruct st];
    cbv [andThen writeDirection direction_levels pwm_duty_cycle emit negb
         set_dutyCycle set_pwmUpdateNeeded fst snd
         displayIsOn pwmUpdateNeeded abOld count lastpressed forward stopped
         speed2x speedFull dutyCycle out];
    rewrite <- !app_assoc; reflexivity.
Qed.

Lemma outputStage_idle s : pwmUpdateNeeded s = false -> outputStage s = s.
Proof. intros H. unfold outputStage. rewrite H. reflexivity. Qed.

Lemma pwm_duties_app l1 l2 : pwm_duties (l1 ++ l2) = pwm_duties l1 ++ pwm_duties l2.
Proof.
  induction l1 as [|e l1 IH]; [reflexivity|].
  destruct e; cbn; rewrite IH; reflexivity.
Qed.

Lemma emitted_pwm_last s l d :
  pwm_duties (out s) = l ++ [d] -> emitted_pwm s = Some d.
Proof.
  intros H. unfold emitted_pwm. rewrite H, map_app. cbn. apply last_last.
Qed.

Lemma outputStage_pwm s :
  pwmUpdateNeeded s = true ->
  pwm_duties (out (outputStage s)) =
  pwm_duties (out s) ++ [pwm_duty_cycle (set_dutyCycle (duty_of_count (count s)) s)].
Proof.
  intros H. rewrite (outputStage_run s H). cbn [out].
  rewrite pwm_duties_app. reflexivity.
Qed.

Lemma wrap_int_double_not_1023 b : Avr.wrap_int (b * 2) <> 1023.
Proof.
  unfold Avr.wrap_int. intros H.
  pose proof (Z.div_mod (b * 2 + 32768) 65536 ltac:(lia)). lia.
Qed.

(** C5.  When the output stage runs with both [speed2x] and [speedFull] set,
    the duty handed to the timer is the base duty doubled (as an [int]), which
    is never the full-speed value 1023; for every count in [0, COUNTLIMIT] the
    doubling does not wrap, so the duty is exactly twice the base duty. *)
Theorem speed2x_wins_over_speedFull (s : state) :
  pwmUpdateNeeded s = true ->
  speed2x s = true ->
  speedFull s = true ->
  let base := base_duty (duty_of_count (count s)) in
  pwm_duties (out (outputStage s)) = pwm_duties (out s) ++ [Avr.wrap_int (base * 2)]
  /\ emitted_pwm (outputStage s) = Some (Avr.wrap_int (base * 2))
  /\ Avr.wrap_int (base * 2) <> 1023
  /\ (0 <= count s <= COUNTLIMIT -> Avr.wrap_int (base * 2) = 2 * base).
Proof.
  intros Hrun H2x Hfull base.
  assert (Hd : pwm_duties (out (outputStage s)) =
               pwm_duties (out s) ++ [Avr.wrap_int (base * 2)]).
  { rewrite (outputStage_pwm s Hrun). unfold pwm_duty_cycle.
    cbn [speed2x speedFull dutyCycle set_dutyCycle]. rewrite H2x. reflexivity. }
  split; [exact Hd|]. split; [exact (emitted_pwm_last _ _ _ Hd)|].
  split; [apply wrap_int_double_not_1023|].
  intros Hc. pose proof (base_duty_range (count s) Hc) as Hb. fold base in Hb.
  rewrite wrap_int_id by (unfold Avr.int_range; lia). lia.
Qed.

Lemma speed2x_wins_over_speedFull_witness :
  emitted_pwm (outputStage (pollButtons (mkButtons false false true true) init))
  = Some 156.
Proof.
  exact (proj1 (proj2
    (speed2x_wins_over_speedFull
       (pollButtons (mkButtons false false true true) init)
       eq_refl eq_refl eq_refl))).
Defined.

Lemma loop_unfold i s :
  loop i s =
  displayStage (outputStage (pollButtons (membrane i)
                  (checkKYbutton (kyButton i) (millis1 i) (millis2 i) s))).
Proof. reflexivity. Qed.

Lemma pinChangeISR_flag a b s : pwmUpdateNeeded (pinChangeISR a b s) = true.
Proof.
  unfold pinChangeISR.
  destruct ((criterion a b s =? 1) || (criterion a b s =? 2));
    [destruct (goes_up a b s)|];
    cbn [count pwmUpdateNeeded set_count set_abOld set_pwmUpdateNeeded];
    match goal with |- context [?x <? 0] => destruct (x <? 0) end;
    cbn [count pwmUpdateNeeded set_count set_abOld set_pwmUpdateNeeded];
    match goal with |- context [?x >? ?y] => destruct (x >? y) end;
    reflexivity.
Qed.

Lemma run_isr_flag inputs : forall s,
  pwmUpdateNeeded s = true -> pwmUpdateNeeded (run_isr inputs s) = true.
Proof.
  induction inputs as [|[a b] rest IH]; intros s H; [exact H|].
  cbn. apply IH, pinChangeISR_flag.
Qed.

Lemma checkKYbutton_keeps button now now' s :
  count (checkKYbutton button now now' s) = count s
  /\ pwmUpdateNeeded (checkKYbutton button now now' s) = pwmUpdateNeeded s.
Proof.
  unfold checkKYbutton, andThen.
  match goal with |- context [if ?c then _ else _] => destruct c end;
    split; reflexivity.
Qed.

Lemma pollButtons_keeps k s :
  count (pollButtons k s) = count s
  /\ speed2x (pollButtons k s) = speed2x_of k
  /\ speedFull (pollButtons k s) = speedFull_of k
  /\ (pwmUpdateNeeded s = true -> pwmUpdateNeeded (pollButtons k s) = true).
Proof.
  unfold pollButtons, andThen.
  match goal with |- context [if ?c then _ else _] => destruct c end;
    repeat split; auto.
Qed.

(** The duty a loop iteration hands to the timer when it starts with the flag
    set. *)
Lemma loop_emits i s :
  pwmUpdateNeeded s = true ->
  let base := base_duty (duty_of_count (count s)) in
  emitted_pwm (loop i s) =
  Some (if speed2x_of (membrane i) then Avr.wrap_int (base * 2)
        else if speedFull_of (membrane i) then 1023 else base)
  /\ speed2x (loop i s) = speed2x_of (membrane i).
Proof.
  intros Hrun base. rewrite loop_unfold.
  set (s1 := checkKYbutton (kyButton i) (millis1 i) (millis2 i) s).
  set (s2 := pollButtons (membrane i) s1).
  destruct (checkKYbutton_keeps (kyButton i) (millis1 i) (millis2 i) s) as [Hc1 Hf1].
  destruct (pollButtons_keeps (membrane i) s1) as (Hc2 & H2x & Hfull & Hf2).
  fold s1 in Hc1, Hf1. fold s2 in Hc2, H2x, Hfull, Hf2.
  assert (Hrun2 : pwmUpdateNeeded s2 = true) by (apply Hf2; congruence).
  destruct (displayStage_out (outputStage s2)) as (evs & E & Hev).
  split.
  - apply (emitted_pwm_last _ (pwm_duties (out s2))).
    rewrite E, pwm_duties_app, (pwm_duties_display evs Hev), app_nil_r.
    rewrite (outputStage_pwm s2 Hrun2). unfold pwm_duty_cycle.
    cbn [speed2x speedFull dutyCycle set_dutyCycle].
    rewrite H2x, Hfull, Hc2, Hc1. reflexivity.
  - pose proof (displayStage_globals (outputStage s2)) as G.
    unfold globals in G. injection G as _ _ _ _ _ _ _ G2x _ _.
    rewrite G2x, (outputStage_run s2 Hrun2). exact H2x.
Qed.

(** C6.  The doubled duty is not clamped.  The count reaches COUNTLIMIT (1889
    counting-up transitions from the initial 157), and a loop iteration with
    only button 3 pressed, hence [speed2x] set, then hands 2046 to the timer,
    above the resolution's maximum of 1023. *)
Theorem doubled_duty_exceeds_resolution :
  exists (inputs : list (bool * bool)) (i : loopInput),
    let s := run_isr inputs init in
    count s = COUNTLIMIT
    /\ COUNTLIMIT = 2046
    /\ speed2x (loop i s) = true
    /\ emitted_pwm (loop i s) = Some 2046
    /\ 1023 < 2046.
Proof.
  exists (firstn 1889 (repeat_seq 473 upCycle)).
  exists (mkLoopInput true 0 0 (mkButtons true true false true)).
  cbv zeta.
  assert (Hc : count (run_isr (firstn 1889 (repeat_seq 473 upCycle)) init) = COUNTLIMIT).
  { rewrite (up_rotation_prefix 473 1889 init);
      [reflexivity | reflexivity | cbn; lia | cbn; unfold COUNTLIMIT; lia | lia]. }
  destruct (loop_emits (mkLoopInput true 0 0 (mkButtons true true false true))
              (run_isr (firstn 1889 (repeat_seq 473 upCycle)) init)
              (run_isr_flag _ init eq_refl)) as [He H2x].
  split; [exact Hc|]. split; [reflexivity|]. split; [exact H2x|].
  split; [|reflexivity].
  rewrite He, Hc. vm_compute. reflexivity.
Qed.

(** ** The display *)

(** The literal 0.1599 is the binary32 10730707 * 2^-26, within half a unit in
    the last place of 1599 / 10000. *)
Lemma literal_1599 :
  F32.literal 1599 10000 = S754_finite false 10730707 (-26)
  /\ 2 * Z.abs (10730707 * 10000 - 1599 * 2 ^ 26) < 10000.
Proof. split; [vm_compute; reflexivity | vm_compute; reflexivity]. Qed.

Lemma shifted_app l1 l2 : shifted (l1 ++ l2) = shifted l1 ++ shifted l2.
Proof.
  induction l1 as [|e l1 IH]; [reflexivity|].
  destruct e; cbn; rewrite IH; reflexivity.
Qed.

(** What [displayNumber] sends when the display is on. *)
Lemma displayNumber_on n d dot s :
  displayIsOn s = true ->
  displayIsOn (displayNumber n d dot s) = true
  /\ out (displayNumber n d dot s) =
     out s ++ [DigitalWrite RCLK_PIN LOW;
               ShiftOut DIO_PIN SCLK_PIN
                 (if dot then option_map (fun v => Z.land v 0x7F) (at_index bits n)
                  else at_index bits n);
               ShiftOut DIO_PIN SCLK_PIN (at_index displays d);
               DigitalWrite RCLK_PIN HIGH;
               Delay 1].
Proof.
  intros H. unfold displayNumber. rewrite H.
  unfold andThen, emit. cbn [displayIsOn out]. split; [exact H|].
  rewrite <- !app_assoc. reflexivity.
Qed.

(** C7.  For the fraction 0.1599 [display] computes the digits 1, 5, 9, 9 (by
    the truncated products with 10, 100, 1000 and 10000), and with the display
    on it shifts out their segment bytes, each followed by the select line of
    its position from the left, the dot lit on the second digit only. *)
Theorem display_of_1599 (s : state) :
  displayIsOn s = true ->
  let p := F32.literal 1599 10000 in
  display_digits p = [1; 5; 9; 9]
  /\ shifted (out (display p s)) =
     shifted (out s) ++ [Some 0xF9; Some 0x08; Some 0x12; Some 0x04;
                         Some 0x90; Some 0x02; Some 0x90; Some 0x01]
  /\ map dot_lit (segments [Some 0xF9; Some 0x08; Some 0x12; Some 0x04;
                            Some 0x90; Some 0x02; Some 0x90; Some 0x01])
     = [false; true; false; false]
  /\ Z.land 0x92 0x7F = 0x12.
Proof.
  intros Hon p.
  assert (Hd : display_digits p = [1; 5; 9; 9]) by (vm_compute; reflexivity).
  split; [exact Hd|]. split; [|split; reflexivity].
  unfold display. rewrite Hd.
  cbn [map display_from]. unfold andThen.
  destruct (displayNumber_on (Avr.wrap_byte 1) 0 (0 =? 1) s Hon) as [H1 O1].
  destruct (displayNumber_on (Avr.wrap_byte 5) (0 + 1) (0 + 1 =? 1) _ H1) as [H2 O2].
  destruct (displayNumber_on (Avr.wrap_byte 9) (0 + 1 + 1) (0 + 1 + 1 =? 1) _ H2)
    as [H3 O3].
  destruct (displayNumber_on (Avr.wrap_byte 9) (0 + 1 + 1 + 1) (0 + 1 + 1 + 1 =? 1) _ H3)
    as [_ O4].
  rewrite O4, O3, O2, O1. rewrite !shifted_app, <- !app_assoc. reflexivity.
Qed.

Lemma display_of_1599_witness :
  display_digits (F32.literal 1599 10000) = [1; 5; 9; 9].
Proof.
  exact (proj1 (display_of_1599 init eq_refl)).
Defined.

(** ** The quiescent output stage *)

(** C8.  With [pwmUpdateNeeded] false the output stage changes nothing: the
    state, and with it the direction pins, the duty last handed to the timer
    and [dutyCycle], are as before; running it a second time changes nothing
    either. *)
Theorem output_stage_no_op_when_clean (s : state) :
  pwmUpdateNeeded s = false ->
  outputStage s = s
  /\ direction (outputStage s) = direction s
  /\ emitted_pwm (outputStage s) = emitted_pwm s
  /\ pwm_duties (out (outputStage s)) = pwm_duties (out s)
  /\ dutyCycle (outputStage s) = dutyCycle s
  /\ outputStage (outputStage s) = s
  /\ emitted_pwm (outputStage (outputStage s)) = emitted_pwm s.
Proof.
  intros H. rewrite !(outputStage_idle s H). repeat split; reflexivity.
Qed.

Lemma output_stage_no_op_when_clean_witness :
  pwmUpdateNeeded (outputStage init) = false
  /\ emitted_pwm (outputStage (outputStage (outputStage init))) = Some 78.
Proof.
  split; [reflexivity|].
  exact (proj2 (proj2 (proj2 (proj2 (proj2 (proj2
    (output_stage_no_op_when_clean (outputStage init) eq_refl))))))).
Defined.

(** The output stage always leaves the flag cleared, so a second run right
    after the first is the quiescent one. *)
Lemma outputStage_idempotent s : outputStage (outputStage s) = outputStage s.
Proof.
  destruct (pwmUpdateNeeded s) eqn:H.
  - apply outputStage_idle. rewrite (outputStage_run s H). reflexivity.
  - rewrite !(outputStage_idle s H). reflexivity.
Qed.

(** ** The direction pins *)

(** What is left alone by the interrupt handler, the push button check and the
    button polling: [stopped] and the outputs. *)
Lemma pinChangeISR_frame a b s :
  stopped (pinChangeISR a b s) = stopped s /\ out (pinChangeISR a b s) = out s.
Proof.
  unfold pinChangeISR.
  destruct ((criterion a b s =? 1) || (criterion a b s =? 2));
    [destruct (goes_up a b s)|];
    cbn [count stopped out set_count set_abOld set_pwmUpdateNeeded];
    match goal with |- context [?x <? 0] => destruct (x <? 0) end;
    cbn [count stopped out set_count set_abOld set_pwmUpdateNeeded];
    match goal with |- context [?x >? ?y] => destruct (x >? y) end;
    split; reflexivity.
Qed.

Lemma checkKYbutton_frame button now now' s :
  stopped (checkKYbutton button now now' s) = stopped s
  /\ out (checkKYbutton button now now' s) = out s.
Proof.
  unfold checkKYbutton, andThen.
  match goal with |- context [if ?c then _ else _] => destruct c end;
    split; reflexivity.
Qed.

Lemma pollButtons_frame k s :
  stopped (pollButtons k s) = stopped s /\ out (pollButtons k s) = out s.
Proof.
  unfold pollButtons, andThen.
  match goal with |- context [if ?c then _ else _] => destruct c end;
    split; reflexivity.
Qed.

Lemma globals_stopped s s' : globals s = globals s' -> stopped s = stopped s'.
Proof. unfold globals. intros H. injection H. auto. Qed.

Lemma direction_levels_not_stopped s :
  stopped s = false ->
  direction_levels s = (LOW, HIGH) \/ direction_levels s = (HIGH, LOW).
Proof.
  intros H. unfold direction_levels. rewrite H.
  destruct (forward s); [left | right]; reflexivity.
Qed.

Lemma never_stopped_inv (c : stage * state) :
  reachable c -> never_stopped (snd c).
Proof.
  induction 1 as [|c c' Hreach IH Hstep].
  - split; [reflexivity | left; split; reflexivity].
  - destruct Hstep as [p s a b | s button now now' | s k | s | s];
      cbn [snd] in *; destruct IH as [Hst Hdir].
    + destruct (pinChangeISR_frame a b s) as [E1 E2].
      split; [congruence|]. unfold direction. rewrite E2. exact Hdir.
    + destruct (checkKYbutton_frame button now now' s) as [E1 E2].
      split; [congruence|]. unfold direction. rewrite E2. exact Hdir.
    + destruct (pollButtons_frame k s) as [E1 E2].
      split; [congruence|]. unfold direction. rewrite E2. exact Hdir.
    + destruct (pwmUpdateNeeded s) eqn:Hrun.
      * rewrite (outputStage_run s Hrun). split; [exact Hst|].
        right. unfold direction. cbn [out]. rewrite !pin_level_app.
        destruct (direction_levels_not_stopped s Hst) as [E|E]; rewrite E;
          [left | right]; reflexivity.
      * rewrite (outputStage_idle s Hrun). split; assumption.
    + split; [rewrite (globals_stopped _ _ (displayStage_globals s)); exact Hst|].
      destruct (displayStage_out s) as (evs & E & Hev).
      unfold direction. rewrite E, !pin_level_app, pwm_duties_app.
      rewrite (pin_level_display MOTOR_A1_PIN evs Hev) by discriminate.
      rewrite (pin_level_display MOTOR_B1_PIN evs Hev) by discriminate.
      rewrite (pwm_duties_display evs Hev), app_nil_r. exact Hdir.
Qed.

(** The state at the display stage of the first iteration, button 1 held. *)
Lemma reachable_reverse :
  reachable (AtDisplay,
             outputStage (pollButtons (mkButtons false true true true)
                            (checkKYbutton true 0 0 init))).
Proof.
  eapply reachable_step; [|apply step_output].
  eapply reachable_step; [|apply step_buttons].
  eapply reachable_step; [|apply step_checkKY].
  apply reachable_init.
Defined.

(** ** Start-up *)

(** The state the first iteration brings to the output stage: the flag is
    still set, the count is the initial one, nothing has been output. *)
Lemma first_iteration_before_output (i : loopInput) :
  let s := pollButtons (membrane i)
             (checkKYbutton (kyButton i) (millis1 i) (millis2 i) init) in
  pwmUpdateNeeded s = true /\ count s = 157 /\ out s = []
  /\ speed2x s = speed2x_of (membrane i) /\ speedFull s = speedFull_of (membrane i).
Proof.
  cbv zeta. unfold checkKYbutton, pollButtons, andThen.
  destruct ((Avr.wrap_ulong (millis1 i - lastpressed init) >? 500) && negb (kyButton i));
    match goal with |- context [if ?c then _ else _] => destruct c end;
    repeat split; reflexivity.
Qed.

Lemma globals_dutyCycle s s' : globals s = globals s' -> dutyCycle s = dutyCycle s'.
Proof. unfold globals. intros H. injection H. auto. Qed.

(** C10, as the code has it.  The flag starts set and the count starts at
    COUNTLIMIT / 13 = 157, so whatever the first iteration of [loop] reads, its
    output stage runs: it hands exactly one duty to the timer (78, the base
    duty of 157, when neither speed override is on) and replaces the initial
    [dutyCycle] of 8.0 by the different value derived from the count, whose
    display digits are 0, 7, 6, 7.  All of that happens before the first byte
    is shifted out to the display: the initial 8.0 is never displayed. *)
Theorem first_iteration_updates_before_display (i : loopInput) :
  pwmUpdateNeeded init = true
  /\ count init = 157
  /\ dutyCycle init = F32.of_int 8
  /\ (exists d, pwm_duties (out (loop i init)) = [d])
  /\ (speed2x_of (membrane i) = false -> speedFull_of (membrane i) = false ->
      pwm_duties (out (loop i init)) = [78])
  /\ dutyCycle (loop i init) = duty_of_count 157
  /\ duty_of_count 157 <> F32.of_int 8
  /\ display_digits (F32.div (dutyCycle (loop i init)) (F32.of_int 100)) = [0; 7; 6; 7]
  /\ shifted (before_first_pwm (out (loop i init))) = [].
Proof.
  destruct (first_iteration_before_output i) as (Hrun & Hc & Ho & H2x & Hfull).
  set (s := pollButtons (membrane i)
              (checkKYbutton (kyButton i) (millis1 i) (millis2 i) init)) in *.
  destruct (displayStage_out (outputStage s)) as (evs & E & Hev).
  assert (Hduty : dutyCycle (loop i init) = duty_of_count 157).
  { rewrite loop_unfold. fold s.
    rewrite (globals_dutyCycle _ _ (displayStage_globals _)).
    rewrite (outputStage_run s Hrun). cbn [dutyCycle]. rewrite Hc. reflexivity. }
  assert (Hout : out (loop i init) =
                 [DigitalWrite MOTOR_A1_PIN (fst (direction_levels s));
                  DigitalWrite MOTOR_B1_PIN (snd (direction_levels s));
                  TimerPwm PWM_OUTPUT_PIN
                    (pwm_duty_cycle (set_dutyCycle (duty_of_count 157) s))] ++ evs).
  { rewrite loop_unfold. fold s. rewrite E, (outputStage_run s Hrun).
    cbn [out]. rewrite Ho, Hc. reflexivity. }
  assert (Hpwm : pwm_duties (out (loop i init)) =
                 [pwm_duty_cycle (set_dutyCycle (duty_of_count 157) s)]).
  { rewrite Hout, pwm_duties_app, (pwm_duties_display evs Hev). reflexivity. }
  repeat split.
  - exists (pwm_duty_cycle (set_dutyCycle (duty_of_count 157) s)). exact Hpwm.
  - intros N2 NF. rewrite Hpwm. unfold pwm_duty_cycle.
    cbn [speed2x speedFull dutyCycle set_dutyCycle]. rewrite H2x, Hfull, N2, NF.
    vm_compute. reflexivity.
  - exact Hduty.
  - vm_compute. discriminate.
  - rewrite Hduty. vm_compute. reflexivity.
  - rewrite Hout. reflexivity.
Qed.

Lemma first_iteration_updates_before_display_witness :
  pwm_duties (out (loop (idle 0) init)) = [78].
Proof.
  exact (proj1 (proj2 (proj2 (proj2 (proj2
    (first_iteration_updates_before_display (idle 0))))))
    eq_refl eq_refl).
Defined.

(** C10, as stated, fails: nothing is displayed before the first update.  In
    an idle first iteration no byte goes to the display before the timer gets
    its duty, and the bytes that follow show 07.67, the duty derived from the
    count, not the 08.00 of the initial [dutyCycle]. *)
Lemma initial_duty_is_never_displayed :
  shifted (before_first_pwm (out (loop (idle 0) init))) = []
  /\ shifted (out (loop (idle 0) init)) =
     [Some 0xC0; Some 0x08; Some 0x78; Some 0x04;
      Some 0x82; Some 0x02; Some 0xF8; Some 0x01]
  /\ shifted (out (display (F32.div (dutyCycle init) (F32.of_int 100)) init)) =
     [Some 0xC0; Some 0x08; Some 0x00; Some 0x04;
      Some 0xC0; Some 0x02; Some 0xC0; Some 0x01]
  /\ ~ (exists v, In v (shifted (before_first_pwm (out (loop (idle 0) init))))).
Proof.
  repeat split; try (vm_compute; reflexivity).
  intros [v Hv]. vm_compute in Hv. exact Hv.
Qed.

(** ** The count as the main loop sees it *)

(** Only the interrupt handler writes [count]: the bound of the handler holds
    in every state of the whole system, at whatever stage of the loop the
    count is read. *)
Lemma reachable_count_ok (c : stage * state) :
  reachable c -> count_ok (snd c).
Proof.
  induction 1 as [|c c' Hreach IH Hstep]; [exact init_count_ok|].
  destruct Hstep as [p s a b | s button now now' | s k | s | s];
    cbn [snd] in *; unfold count_ok in *.
  - apply pinChangeISR_count_ok.
  - rewrite (proj1 (checkKYbutton_keeps button now now' s)). exact IH.
  - rewrite (proj1 (pollButtons_keeps k s)). exact IH.
  - destruct (pwmUpdateNeeded s) eqn:Hrun.
    + rewrite (outputStage_run s Hrun). exact IH.
    + rewrite (outputStage_idle s Hrun). exact IH.
  - pose proof (displayStage_globals s) as G.
    unfold globals in G. injection G as _ _ _ Gc _ _ _ _ _ _.
    rewrite Gc. exact IH.
Qed.

(** * Further properties of the sketch *)

(** ** Each stage as one record *)

Lemma state_ext s s' : globals s = globals s' -> out s = out s' -> s = s'.
Proof.
  destruct s, s'. unfold globals. cbn. intros G O.
  injection G as -> -> -> -> -> -> -> -> -> ->. subst. reflexivity.
Qed.

Lemma pinChangeISR_view a b s :
  pinChangeISR a b s =
  mkState (displayIsOn s) true (abNew a b) (count (pinChangeISR a b s))
          (lastpressed s) (forward s) (stopped s) (speed2x s) (speedFull s)
          (dutyCycle s) (out s).
Proof.
  apply state_ext; [unfold globals; cbn [displayIsOn pwmUpdateNeeded abOld count
    lastpressed forward stopped speed2x speedFull dutyCycle]|cbn [out]].
  - rewrite pinChangeISR_flag, pinChangeISR_abOld.
    unfold pinChangeISR.
    destruct ((criterion a b s =? 1) || (criterion a b s =? 2));
      [destruct (goes_up a b s)|];
      cbn [count set_count set_abOld set_pwmUpdateNeeded];
      match goal with |- context [?x <? 0] => destruct (x <? 0) end;
      cbn [count set_count set_abOld set_pwmUpdateNeeded];
      match goal with |- context [?x >? ?y] => destruct (x >? y) end;
      reflexivity.
  - apply pinChangeISR_frame.
Qed.

Lemma checkKYbutton_view button now now' s :
  checkKYbutton button now now' s =
  if (Avr.wrap_ulong (now - lastpressed s) >? 500) && negb button
  then mkState (negb (displayIsOn s)) (pwmUpdateNeeded s) (abOld s) (count s)
               (Avr.wrap_long now') (forward s) (stopped s) (speed2x s)
               (speedFull s) (dutyCycle s) (out s)
  else s.
Proof.
  unfold checkKYbutton, andThen.
  destruct ((Avr.wrap_ulong (now - lastpressed s) >? 500) && negb button);
    reflexivity.
Qed.

Lemma pollButtons_view k s :
  pollButtons k s =
  mkState (displayIsOn s) (intents_change k s || pwmUpdateNeeded s) (abOld s)
          (count s) (lastpressed s) (forward_of k) (stopped s) (speed2x_of k)
          (speedFull_of k) (dutyCycle s) (out s).
Proof.
  unfold pollButtons, andThen, intents_change.
  cbn [forward speed2x speedFull set_forward set_speed2x set_speedFull].
  match goal with |- context [if ?c then _ else _] => destruct c end; reflexivity.
Qed.

Lemma displayStage_view s :
  exists evs,
    displayStage s =
    mkState (displayIsOn s) (pwmUpdateNeeded s) (abOld s) (count s) (lastpressed s)
            (forward s) (stopped s) (speed2x s) (speedFull s) (dutyCycle s)
            (out s ++ evs)
    /\ forallb is_display_event evs = true.
Proof.
  destruct (displayStage_out s) as (evs & E & Hev). exists evs.
  split; [|exact Hev].
  apply state_ext; [rewrite displayStage_globals; reflexivity | exact E].
Qed.

Lemma abNew_range a b : 0 <= abNew a b <= 3.
Proof.
  destruct a, b;
    match goal with
    | |- context [abNew ?x ?y] =>
        let v := eval vm_compute in (abNew x y) in change (abNew x y) with v
    end; lia.
Qed.

(** ** The decoder in the whole system *)

(** X1.  Only the interrupt handler writes [count], so in every state the
    system reaches, at whatever stage the main loop reads it, the count lies
    in [0, COUNTLIMIT]. *)
Theorem count_in_range_everywhere (c : stage * state) :
  reachable c -> 0 <= count (snd c) <= COUNTLIMIT.
Proof. intros H. exact (reachable_count_ok c H). Qed.

Lemma count_in_range_everywhere_witness :
  0 <= count (outputStage (pollButtons (mkButtons false true true true)
                             (checkKYbutton true 0 0 init))) <= COUNTLIMIT.
Proof.
  exact (count_in_range_everywhere _ reachable_reverse).
Defined.

Lemma reachable_abOld (c : stage * state) :
  reachable c -> 0 <= abOld (snd c) <= 3.
Proof.
  induction 1 as [|c c' Hreach IH Hstep]; [cbn; lia|].
  destruct Hstep as [p s a b | s button now now' | s k | s | s]; cbn [snd] in *.
  - rewrite pinChangeISR_abOld. apply abNew_range.
  - rewrite checkKYbutton_view.
    destruct ((Avr.wrap_ulong (now - lastpressed s) >? 500) && negb button);
      exact IH.
  - rewrite pollButtons_view. exact IH.
  - destruct (pwmUpdateNeeded s) eqn:Hrun.
    + rewrite (outputStage_run s Hrun). exact IH.
    + rewrite (outputStage_idle s Hrun). exact IH.
  - destruct (displayStage_view s) as (evs & E & _). rewrite E. exact IH.
Qed.

(** X2.  In every state the system reaches [abOld] is a two-bit value, so
    whatever levels the next interrupt reads, the shift amount
    [2 * abOld + abNew / 2] of the direction test lies in 0..7: within the
    eight bits of [upMask] and well below the width of an [int]. *)
Theorem shift_amount_in_table (c : stage * state) (a b : bool) :
  reachable c ->
  0 <= abOld (snd c) <= 3
  /\ 0 <= 2 * abOld (snd c) + abNew a b / 2 <= 7.
Proof.
  intros H. pose proof (reachable_abOld c H) as Hab. split; [exact Hab|].
  destruct a, b;
    match goal with
    | |- context [abNew ?x ?y / 2] =>
        let v := eval vm_compute in (abNew x y / 2) in change (abNew x y / 2) with v
    end; lia.
Qed.

Lemma shift_amount_in_table_witness :
  0 <= 2 * abOld (pinChangeISR true true init) + abNew false true / 2 <= 7.
Proof.
  refine (proj2 (shift_amount_in_table (AtCheckKY, pinChangeISR true true init)
                   false true _)).
  eapply reachable_step; [apply reachable_init | apply step_interrupt].
Defined.

Lemma clamp_near c x :
  0 <= c <= COUNTLIMIT -> c - 1 <= x <= c + 1 -> c - 1 <= clamp x <= c + 1.
Proof.
  unfold clamp, COUNTLIMIT. rewrite !Z.gtb_ltb. intros Hc Hx.
  destruct (Z.ltb_spec x 0);
    match goal with |- context [?u <? ?v] => destruct (Z.ltb_spec u v) end; lia.
Qed.

(** X3.  The interrupt handler touches three globals only: it stores the
    levels it read in [abOld], sets [pwmUpdateNeeded] (also when the
    transition is not valid and the count stays), and moves [count], by at
    most one when it was in range.  The intents, [stopped], [dutyCycle], the
    display flag, the debounce time and the outputs are as before. *)
Theorem interrupt_touches_three_globals (a b : bool) (s : state) :
  pinChangeISR a b s =
  mkState (displayIsOn s) true (abNew a b) (count (pinChangeISR a b s))
          (lastpressed s) (forward s) (stopped s) (speed2x s) (speedFull s)
          (dutyCycle s) (out s)
  /\ (0 <= count s <= COUNTLIMIT ->
      count s - 1 <= count (pinChangeISR a b s) <= count s + 1).
Proof.
  split; [apply pinChangeISR_view|].
  intros Hc. rewrite pinChangeISR_count.
  assert (Hup : Avr.wrap_int (count s + 1) = count s + 1)
    by (apply wrap_int_id; unfold Avr.int_range, COUNTLIMIT in *; lia).
  assert (Hdn : Avr.wrap_int (count s - 1) = count s - 1)
    by (apply wrap_int_id; unfold Avr.int_range, COUNTLIMIT in *; lia).
  rewrite Hup, Hdn.
  destruct ((criterion a b s =? 1) || (criterion a b s =? 2));
    [destruct (goes_up a b s)|]; apply clamp_near; lia.
Qed.

Lemma pinChangeISR_delta a b s :
  0 <= count s <= COUNTLIMIT ->
  count (pinChangeISR a b s) = clamp (count s + count_delta (abOld s) a b).
Proof.
  intros Hc. rewrite pinChangeISR_count.
  unfold criterion, goes_up, count_delta. cbv zeta.
  destruct ((Avr.wrap_byte (Z.lxor (abNew a b) (abOld s)) =? 1)
            || (Avr.wrap_byte (Z.lxor (abNew a b) (abOld s)) =? 2));
    [|rewrite Z.add_0_r; reflexivity].
  destruct (negb (Z.land upMask (Z.shiftl 1 (2 * abOld s + abNew a b / 2)) =? 0));
    rewrite wrap_int_id by (unfold Avr.int_range, COUNTLIMIT in *; lia);
    reflexivity.
Qed.

(** A single-bit change is counted, and the change back counts the other
    way. *)
Lemma count_delta_valid a0 b0 a b :
  single_bit_change a0 b0 a b = true ->
  (count_delta (abNew a0 b0) a b = 1 \/ count_delta (abNew a0 b0) a b = -1)
  /\ count_delta (abNew a0 b0) a b + count_delta (abNew a b) a0 b0 = 0.
Proof.
  destruct a0, b0, a, b; intros H; try discriminate H;
    (split; [first [left; vm_compute; reflexivity | right; vm_compute; reflexivity]
            | vm_compute; reflexivity]).
Qed.

(** X4.  A valid transition (one pin changes, seen from the levels of the
    last interrupt) moves a count strictly inside the range by exactly one,
    and the transition back to the old levels undoes it: a contact that
    bounces leaves the count where it was. *)
Theorem bounce_cancels (a0 b0 a b : bool) (s : state) :
  abOld s = abNew a0 b0 ->
  single_bit_change a0 b0 a b = true ->
  0 < count s < COUNTLIMIT ->
  (count (pinChangeISR a b s) = count s + 1
   \/ count (pinChangeISR a b s) = count s - 1)
  /\ count (pinChangeISR a0 b0 (pinChangeISR a b s)) = count s.
Proof.
  intros Hab Hone Hc.
  destruct (count_delta_valid a0 b0 a b Hone) as [Hd Hback].
  assert (H1 : count (pinChangeISR a b s) = count s + count_delta (abNew a0 b0) a b).
  { rewrite pinChangeISR_delta by lia. rewrite Hab. apply clamp_id. lia. }
  split; [rewrite H1; destruct Hd as [-> | ->]; [left | right]; lia|].
  rewrite pinChangeISR_delta by (rewrite H1; lia).
  rewrite pinChangeISR_abOld, H1, clamp_id by lia. lia.
Qed.

Lemma bounce_cancels_witness :
  count (pinChangeISR false false (pinChangeISR false true init)) = count init.
Proof.
  refine (proj2 (bounce_cancels false false false true init _ _ _));
    [reflexivity | reflexivity | cbn; unfold COUNTLIMIT; lia].
Defined.

Lemma cycle_deltas :
  (count_delta 0 true false = 1 /\ count_delta 2 true true = 1
   /\ count_delta 3 false true = 1 /\ count_delta 1 false false = 1)
  /\ (count_delta 0 false true = -1 /\ count_delta 1 true true = -1
      /\ count_delta 3 true false = -1 /\ count_delta 2 false false = -1).
Proof. repeat split; reflexivity. Qed.

Lemma clamp_up c : 0 <= c <= COUNTLIMIT -> clamp (c + 1) = Z.min COUNTLIMIT (c + 1).
Proof.
  unfold clamp, COUNTLIMIT. rewrite !Z.gtb_ltb. intros Hc.
  destruct (Z.ltb_spec (c + 1) 0);
    match goal with |- context [?u <? ?v] => destruct (Z.ltb_spec u v) end; lia.
Qed.

Lemma clamp_down c : 0 <= c <= COUNTLIMIT -> clamp (c + -1) = Z.max 0 (c - 1).
Proof.
  unfold clamp, COUNTLIMIT. rewrite !Z.gtb_ltb. intros Hc.
  destruct (Z.ltb_spec (c + -1) 0);
    match goal with |- context [?u <? ?v] => destruct (Z.ltb_spec u v) end; lia.
Qed.

(** One transition of known effect, from a known phase. *)
Lemma step_up old a b s :
  abOld s = old -> count_delta old a b = 1 -> 0 <= count s <= COUNTLIMIT ->
  count (pinChangeISR a b s) = Z.min COUNTLIMIT (count s + 1)
  /\ 0 <= count (pinChangeISR a b s) <= COUNTLIMIT.
Proof.
  intros Hab Hd Hc. split; [|apply pinChangeISR_count_ok].
  rewrite pinChangeISR_delta, Hab, Hd by exact Hc. apply clamp_up, Hc.
Qed.

Lemma step_down old a b s :
  abOld s = old -> count_delta old a b = -1 -> 0 <= count s <= COUNTLIMIT ->
  count (pinChangeISR a b s) = Z.max 0 (count s - 1)
  /\ 0 <= count (pinChangeISR a b s) <= COUNTLIMIT.
Proof.
  intros Hab Hd Hc. split; [|apply pinChangeISR_count_ok].
  rewrite pinChangeISR_delta, Hab, Hd by exact Hc. apply clamp_down, Hc.
Qed.

Lemma up_cycle_saturates s :
  abOld s = 0 -> 0 <= count s <= COUNTLIMIT ->
  count (run_isr upCycle s) = Z.min COUNTLIMIT (count s + 4)
  /\ abOld (run_isr upCycle s) = 0.
Proof.
  intros Hab Hc. destruct cycle_deltas as [(D1 & D2 & D3 & D4) _].
  cbn [run_isr upCycle fold_left fst snd].
  set (s1 := pinChangeISR true false s).
  set (s2 := pinChangeISR true true s1).
  set (s3 := pinChangeISR false true s2).
  destruct (step_up 0 true false s Hab D1 Hc) as [C1 R1]. fold s1 in C1, R1.
  destruct (step_up 2 true true s1 (pinChangeISR_abOld _ _ _) D2 R1) as [C2 R2].
  fold s2 in C2, R2.
  destruct (step_up 3 false true s2 (pinChangeISR_abOld _ _ _) D3 R2) as [C3 R3].
  fold s3 in C3, R3.
  destruct (step_up 1 false false s3 (pinChangeISR_abOld _ _ _) D4 R3) as [C4 _].
  split; [lia | apply pinChangeISR_abOld].
Qed.

Lemma down_cycle_saturates s :
  abOld s = 0 -> 0 <= count s <= COUNTLIMIT ->
  count (run_isr downCycle s) = Z.max 0 (count s - 4)
  /\ abOld (run_isr downCycle s) = 0.
Proof.
  intros Hab Hc. destruct cycle_deltas as [_ (D1 & D2 & D3 & D4)].
  cbn [run_isr downCycle fold_left fst snd].
  set (s1 := pinChangeISR false true s).
  set (s2 := pinChangeISR true true s1).
  set (s3 := pinChangeISR true false s2).
  destruct (step_down 0 false true s Hab D1 Hc) as [C1 R1]. fold s1 in C1, R1.
  destruct (step_down 1 true true s1 (pinChangeISR_abOld _ _ _) D2 R1) as [C2 R2].
  fold s2 in C2, R2.
  destruct (step_down 3 true false s2 (pinChangeISR_abOld _ _ _) D3 R2) as [C3 R3].
  fold s3 in C3, R3.
  destruct (step_down 2 false false s3 (pinChangeISR_abOld _ _ _) D4 R3) as [C4 _].
  split; [lia | apply pinChangeISR_abOld].
Qed.

(** X5.  Turning the knob saturates instead of wrapping.  From an in-range
    count and both pins last seen low, [N] full turns of the quadrature cycle
    in the counting-up direction leave min (COUNTLIMIT, count + 4 N), and [N]
    turns in the other direction (B first) leave max (0, count - 4 N). *)
Theorem rotation_saturates (N : nat) (s : state) :
  abOld s = 0 ->
  0 <= count s <= COUNTLIMIT ->
  count (run_isr (repeat_seq N upCycle) s)
  = Z.min COUNTLIMIT (count s + 4 * Z.of_nat N)
  /\ count (run_isr (repeat_seq N downCycle) s)
     = Z.max 0 (count s - 4 * Z.of_nat N).
Proof.
  revert s. induction N as [|N IH]; intros s Hab Hc.
  - cbn [repeat_seq run_isr fold_left]. lia.
  - cbn [repeat_seq]. rewrite !run_isr_app.
    destruct (up_cycle_saturates s Hab Hc) as [Cu Au].
    destruct (down_cycle_saturates s Hab Hc) as [Cd Ad].
    destruct (IH (run_isr upCycle s) Au (run_isr_count_ok _ _ Hc)) as [IHu _].
    destruct (IH (run_isr downCycle s) Ad (run_isr_count_ok _ _ Hc)) as [_ IHd].
    rewrite IHu, IHd, Cu, Cd. lia.
Qed.

Lemma rotation_saturates_witness :
  count (run_isr (repeat_seq 2 upCycle) init) = Z.min COUNTLIMIT (count init + 8)
  /\ count (run_isr (repeat_seq 2 downCycle) init) = Z.max 0 (count init - 8).
Proof.
  apply (rotation_saturates 2 init); [reflexivity | cbn; unfold COUNTLIMIT; lia].
Defined.

(** ** The push button of the encoder *)

(** Storing [millis()] in the signed [lastpressed] loses nothing for the
    unsigned difference the test takes. *)
Lemma elapsed_since_stored now t :
  Avr.wrap_ulong (now - Avr.wrap_long t) = Avr.wrap_ulong (now - t).
Proof.
  unfold Avr.wrap_ulong, Avr.wrap_long.
  pose proof (Z.div_mod (t + 2147483648) 4294967296 ltac:(lia)) as E.
  replace (now - ((t + 2147483648) mod 4294967296 - 2147483648))
    with (now - t + (t + 2147483648) / 4294967296 * 4294967296) by lia.
  apply Z_mod_plus_full.
Qed.

(** X6.  Debounce of the display toggle.  A press that is accepted (more than
    500 ms after the time stored) flips [displayIsOn] and stores the time
    [t]; a second press is ignored as long as the unsigned 32 bit difference
    between [millis()] and [t] is at most 500, also when [t] does not fit the
    signed [lastpressed] or [millis()] has rolled over in between. *)
Theorem second_press_within_500ms_ignored
        (s : state) (now t now2 t2 : Z) :
  Avr.wrap_ulong (now - lastpressed s) > 500 ->
  Avr.wrap_ulong (now2 - t) <= 500 ->
  let s1 := checkKYbutton LOW now t s in
  displayIsOn s1 = negb (displayIsOn s)
  /\ checkKYbutton LOW now2 t2 s1 = s1.
Proof.
  intros H1 H2 s1. subst s1. rewrite (checkKYbutton_view LOW now t s).
  assert (E1 : (Avr.wrap_ulong (now - lastpressed s) >? 500) = true)
    by (apply Z.gtb_lt; lia).
  rewrite E1. cbn [andb negb LOW]. split; [reflexivity|].
  rewrite checkKYbutton_view. cbn [lastpressed].
  rewrite elapsed_since_stored.
  assert (E2 : (Avr.wrap_ulong (now2 - t) >? 500) = false)
    by (rewrite Z.gtb_ltb; apply Z.ltb_ge; lia).
  rewrite E2. reflexivity.
Qed.

Lemma second_press_within_500ms_ignored_witness :
  checkKYbutton LOW 4294967200 0 (checkKYbutton LOW 4294967000 4294967000 init)
  = checkKYbutton LOW 4294967000 4294967000 init.
Proof.
  refine (proj2 (second_press_within_500ms_ignored
                   init 4294967000 4294967000 4294967200 0 _ _));
    vm_compute; [reflexivity | discriminate].
Defined.

(** X7.  The display toggle reacts to the pressed level only: with the
    switch released (pin high) nothing changes, whatever the time and the
    state; and a second accepted press, more than 500 ms after the first,
    brings [displayIsOn] back to what it was and changes nothing but that flag
    and the stored time. *)
Theorem display_toggle_round_trip (s : state) (now t now2 t2 : Z) :
  checkKYbutton HIGH now t s = s
  /\ (Avr.wrap_ulong (now - lastpressed s) > 500 ->
      Avr.wrap_ulong (now2 - t) > 500 ->
      checkKYbutton LOW now2 t2 (checkKYbutton LOW now t s) =
      mkState (displayIsOn s) (pwmUpdateNeeded s) (abOld s) (count s)
              (Avr.wrap_long t2) (forward s) (stopped s) (speed2x s)
              (speedFull s) (dutyCycle s) (out s)).
Proof.
  split.
  - rewrite checkKYbutton_view. cbn [negb HIGH]. rewrite andb_false_r. reflexivity.
  - intros H1 H2. rewrite (checkKYbutton_view LOW now t s).
    assert (E1 : (Avr.wrap_ulong (now - lastpressed s) >? 500) = true)
      by (apply Z.gtb_lt; lia).
    rewrite E1. cbn [andb negb LOW].
    rewrite checkKYbutton_view.
    cbn [displayIsOn pwmUpdateNeeded abOld count lastpressed forward stopped
         speed2x speedFull dutyCycle out].
    rewrite elapsed_since_stored.
    assert (E2 : (Avr.wrap_ulong (now2 - t) >? 500) = true)
      by (apply Z.gtb_lt; lia).
    rewrite E2. cbn [andb negb]. rewrite negb_involutive. reflexivity.
Qed.

Lemma display_toggle_round_trip_witness :
  checkKYbutton HIGH 100 100 init = init
  /\ displayIsOn (checkKYbutton LOW 1502 1502 (checkKYbutton LOW 1000 1001 init))
     = displayIsOn init.
Proof.
  split.
  - exact (proj1 (display_toggle_round_trip init 100 100 0 0)).
  - refine (f_equal displayIsOn
              (proj2 (display_toggle_round_trip init 1000 1001 1502 1502) _ _));
      vm_compute; reflexivity.
Defined.

(** ** Buttons, flag and outputs across loop iterations *)

Lemma display_events_invisible l evs :
  forallb is_display_event evs = true ->
  pwm_duties (l ++ evs) = pwm_duties l
  /\ pin_level MOTOR_A1_PIN (l ++ evs) = pin_level MOTOR_A1_PIN l
  /\ pin_level MOTOR_B1_PIN (l ++ evs) = pin_level MOTOR_B1_PIN l.
Proof.
  intros Hev. rewrite pwm_duties_app, !pin_level_app.
  rewrite (pwm_duties_display evs Hev), app_nil_r.
  rewrite (pin_level_display MOTOR_A1_PIN evs Hev) by discriminate.
  rewrite (pin_level_display MOTOR_B1_PIN evs Hev) by discriminate.
  repeat split.
Qed.

Lemma intents_change_false k s :
  intents_change k s = false ->
  forward_of k = forward s /\ speed2x_of k = speed2x s /\ speedFull_of k = speedFull s.
Proof.
  unfold intents_change. intros H.
  apply orb_false_iff in H. destruct H as [H H3].
  apply orb_false_iff in H. destruct H as [H1 H2].
  apply negb_false_iff, eqb_prop in H1, H2, H3. auto.
Qed.

Lemma intents_change_same k s :
  forward s = forward_of k -> speed2x s = speed2x_of k -> speedFull s = speedFull_of k ->
  intents_change k s = false.
Proof.
  unfold intents_change. intros -> -> ->. rewrite !eqb_reflx. reflexivity.
Qed.

(** X8.  What the four membrane buttons mean.  After polling, [forward] is
    set when neither button 1 nor 2 is pressed, [speed2x] when button 2 or 3
    is pressed, [speedFull] when button 1 or 4 is pressed (a raw level 0 is
    a press); the flag is raised exactly when one of the three changed, and is
    never cleared here; nothing else changes. *)
Theorem intents_of_buttons (k : buttons) (s : state) :
  pollButtons k s =
  mkState (displayIsOn s) (intents_change k s || pwmUpdateNeeded s) (abOld s)
          (count s) (lastpressed s)
          (key1 k && key2 k) (stopped s)
          (negb (key2 k && key3 k)) (negb (key1 k && key4 k))
          (dutyCycle s) (out s)
  /\ (intents_change k s = false <->
      forward s = key1 k && key2 k
      /\ speed2x s = negb (key2 k && key3 k)
      /\ speedFull s = negb (key1 k && key4 k)).
Proof.
  assert (F : forward_of k = key1 k && key2 k)
    by (unfold forward_of; destruct (key1 k), (key2 k); reflexivity).
  assert (T : speed2x_of k = negb (key2 k && key3 k))
    by (unfold speed2x_of; destruct (key2 k), (key3 k); reflexivity).
  assert (U : speedFull_of k = negb (key1 k && key4 k))
    by (unfold speedFull_of; destruct (key1 k), (key4 k); reflexivity).
  split.
  - rewrite pollButtons_view, F, T, U. reflexivity.
  - rewrite <- F, <- T, <- U. split.
    + intros H. destruct (intents_change_false k s H) as (A & B & C). auto.
    + intros (A & B & C). apply intents_change_same; assumption.
Qed.

(** What a whole iteration leaves in the globals. *)
Lemma loop_facts i s :
  pwmUpdateNeeded (loop i s) = false
  /\ forward (loop i s) = forward_of (membrane i)
  /\ speed2x (loop i s) = speed2x_of (membrane i)
  /\ speedFull (loop i s) = speedFull_of (membrane i)
  /\ count (loop i s) = count s
  /\ stopped (loop i s) = stopped s.
Proof.
  rewrite loop_unfold.
  set (s1 := checkKYbutton (kyButton i) (millis1 i) (millis2 i) s).
  assert (H1 : count s1 = count s /\ stopped s1 = stopped s).
  { unfold s1. rewrite checkKYbutton_view.
    destruct ((Avr.wrap_ulong (millis1 i - lastpressed s) >? 500) && negb (kyButton i));
      split; reflexivity. }
  destruct H1 as [C1 S1].
  set (s2 := pollButtons (membrane i) s1).
  assert (H2 : forward s2 = forward_of (membrane i)
               /\ speed2x s2 = speed2x_of (membrane i)
               /\ speedFull s2 = speedFull_of (membrane i)
               /\ count s2 = count s /\ stopped s2 = stopped s).
  { unfold s2. rewrite pollButtons_view. cbn. auto. }
  destruct H2 as (F2 & T2 & U2 & C2 & S2).
  destruct (displayStage_view (outputStage s2)) as (evs & E & _). rewrite E.
  cbn [pwmUpdateNeeded forward speed2x speedFull count stopped].
  destruct (pwmUpdateNeeded s2) eqn:Hrun.
  - rewrite (outputStage_run s2 Hrun). cbn. auto 10.
  - rewrite (outputStage_idle s2 Hrun). auto 10.
Qed.

(** An iteration that starts with the flag clear and reads the buttons as
    the intents already are only adds outputs of the display. *)
Lemma loop_quiet i s :
  pwmUpdateNeeded s = false ->
  forward s = forward_of (membrane i) ->
  speed2x s = speed2x_of (membrane i) ->
  speedFull s = speedFull_of (membrane i) ->
  exists evs,
    out (loop i s) = out s ++ evs /\ forallb is_display_event evs = true
    /\ dutyCycle (loop i s) = dutyCycle s
    /\ pwmUpdateNeeded (loop i s) = false.
Proof.
  intros Hf F T U. rewrite loop_unfold.
  set (s1 := checkKYbutton (kyButton i) (millis1 i) (millis2 i) s).
  assert (H1 : pwmUpdateNeeded s1 = false /\ forward s1 = forward s
               /\ speed2x s1 = speed2x s /\ speedFull s1 = speedFull s
               /\ dutyCycle s1 = dutyCycle s /\ out s1 = out s).
  { unfold s1. rewrite checkKYbutton_view.
    destruct ((Avr.wrap_ulong (millis1 i - lastpressed s) >? 500) && negb (kyButton i));
      cbn; auto 10. }
  destruct H1 as (Hf1 & F1 & T1 & U1 & D1 & O1).
  assert (E2 : pollButtons (membrane i) s1 = s1).
  { apply state_ext; rewrite pollButtons_view; [|reflexivity].
    unfold globals.
    cbn [displayIsOn pwmUpdateNeeded abOld count lastpressed forward stopped
         speed2x speedFull dutyCycle].
    rewrite (intents_change_same (membrane i) s1) by congruence.
    cbn [orb]. rewrite F1, T1, U1, F, T, U. reflexivity. }
  rewrite E2, (outputStage_idle s1 Hf1).
  destruct (displayStage_view s1) as (evs & E & Hev). rewrite E.
  exists evs. cbn [out dutyCycle pwmUpdateNeeded]. rewrite O1. auto.
Qed.

(** X9.  Holding the buttons steady re-emits nothing.  When a loop iteration
    is followed by another that reads the same membrane buttons, with no
    interrupt in between, the second hands no duty to the timer, writes
    neither direction pin and keeps [dutyCycle]: it only refreshes the
    display. *)
Theorem steady_buttons_emit_nothing
        (k : buttons) (b1 b2 : bool) (t1 t1' t2 t2' : Z) (s : state) :
  let s1 := loop (mkLoopInput b1 t1 t1' k) s in
  let s2 := loop (mkLoopInput b2 t2 t2' k) s1 in
  pwm_duties (out s2) = pwm_duties (out s1)
  /\ direction s2 = direction s1
  /\ dutyCycle s2 = dutyCycle s1
  /\ pwmUpdateNeeded s2 = false
  /\ exists evs, out s2 = out s1 ++ evs /\ forallb is_display_event evs = true.
Proof.
  intros s1 s2.
  destruct (loop_facts (mkLoopInput b1 t1 t1' k) s) as (Hf & F & T & U & _ & _).
  fold s1 in Hf, F, T, U. cbn [membrane] in F, T, U.
  destruct (loop_quiet (mkLoopInput b2 t2 t2' k) s1 Hf F T U)
    as (evs & E & Hev & D & Hf2).
  fold s2 in E, D, Hf2.
  destruct (display_events_invisible (out s1) evs Hev) as (P & A & B).
  unfold direction. rewrite E, P, A, B. repeat split; auto.
  exists evs. auto.
Qed.

(** An iteration that starts with the flag set. *)
Lemma loop_with_flag i s :
  pwmUpdateNeeded s = true ->
  pwm_duties (out (loop i s)) =
  pwm_duties (out s)
  ++ [duty_for (count s) (speed2x_of (membrane i)) (speedFull_of (membrane i))]
  /\ dutyCycle (loop i s) = duty_of_count (count s)
  /\ direction (loop i s) =
     (Some (fst (direction_levels (loop i s))), Some (snd (direction_levels (loop i s)))).
Proof.
  intros Hrun.
  destruct (loop_facts i s) as (_ & F & _ & _ & _ & S).
  assert (L : direction_levels (loop i s) =
              if forward_of (membrane i) then (LOW, HIGH)
              else if negb (stopped s) then (HIGH, LOW) else (LOW, LOW))
    by (unfold direction_levels; rewrite F, S; reflexivity).
  rewrite L. clear L F S. rewrite loop_unfold.
  set (s1 := checkKYbutton (kyButton i) (millis1 i) (millis2 i) s).
  assert (H1 : pwmUpdateNeeded s1 = true /\ count s1 = count s
               /\ stopped s1 = stopped s /\ out s1 = out s).
  { unfold s1. rewrite checkKYbutton_view.
    destruct ((Avr.wrap_ulong (millis1 i - lastpressed s) >? 500) && negb (kyButton i));
      cbn; auto. }
  destruct H1 as (Hf1 & C1 & S1 & O1).
  set (s2 := pollButtons (membrane i) s1).
  assert (Hrun2 : pwmUpdateNeeded s2 = true)
    by (unfold s2; rewrite pollButtons_view; cbn; rewrite Hf1; apply orb_true_r).
  destruct (displayStage_view (outputStage s2)) as (evs & E & Hev). rewrite E.
  destruct (display_events_invisible (out (outputStage s2)) evs Hev) as (P & A & B).
  unfold direction. cbn [out dutyCycle]. rewrite P, A, B.
  rewrite (outputStage_run s2 Hrun2). cbn [out dutyCycle].
  rewrite pwm_duties_app, !pin_level_app.
  unfold s2. rewrite pollButtons_view.
  cbn [displayIsOn pwmUpdateNeeded abOld count lastpressed forward stopped
       speed2x speedFull dutyCycle out]. rewrite C1, S1, O1.
  unfold direction_levels.
  cbn [displayIsOn pwmUpdateNeeded abOld count lastpressed forward stopped
       speed2x speedFull dutyCycle out].
  repeat split.
Qed.

(** X10.  No interrupt is lost.  Whatever the handler read, and whether or
    not it moved the count, the next loop iteration hands the timer exactly
    one new duty, the one of the count the handler left under the speed
    intents of the buttons just read, recomputes [dutyCycle] from that count
    and rewrites the direction pins. *)
Theorem interrupt_is_served_by_next_iteration
        (a b : bool) (i : loopInput) (s : state) :
  let s1 := pinChangeISR a b s in
  pwm_duties (out (loop i s1)) =
  pwm_duties (out s)
  ++ [duty_for (count s1) (speed2x_of (membrane i)) (speedFull_of (membrane i))]
  /\ dutyCycle (loop i s1) = duty_of_count (count s1)
  /\ direction (loop i s1) =
     (Some (fst (direction_levels (loop i s1))), Some (snd (direction_levels (loop i s1)))).
Proof.
  intros s1.
  destruct (loop_with_flag i s1 (pinChangeISR_flag a b s)) as (P & D & R).
  rewrite P. unfold s1 at 1. rewrite (proj2 (pinChangeISR_frame a b s)). auto.
Qed.

Lemma outputs_current_inv (c : stage * state) :
  reachable c -> outputs_current (snd c).
Proof.
  induction 1 as [|c c' Hreach IH Hstep].
  - intros H. discriminate H.
  - destruct Hstep as [p s a b | s button now now' | s k | s | s];
      cbn [snd] in *; unfold outputs_current in *.
    + rewrite pinChangeISR_flag. intros H. discriminate H.
    + rewrite checkKYbutton_view.
      destruct ((Avr.wrap_ulong (now - lastpressed s) >? 500) && negb button);
        exact IH.
    + rewrite pollButtons_view. cbn [pwmUpdateNeeded]. intros H.
      apply orb_false_iff in H. destruct H as [Hsame Hf].
      destruct (intents_change_false k s Hsame) as (F & T & U).
      rewrite F, T, U. exact (IH Hf).
    + destruct (pwmUpdateNeeded s) eqn:Hrun.
      * intros _. rewrite (outputStage_run s Hrun).
        cbn [count speed2x speedFull dutyCycle].
        split; [|split; [reflexivity|]].
        -- apply (emitted_pwm_last _ (pwm_duties (out s))).
           cbn [out]. rewrite pwm_duties_app. reflexivity.
        -- unfold direction. cbn [out]. rewrite !pin_level_app. reflexivity.
      * rewrite (outputStage_idle s Hrun). intros _. exact (IH eq_refl).
    + destruct (displayStage_view s) as (evs & E & Hev). rewrite E.
      cbn [pwmUpdateNeeded count speed2x speedFull dutyCycle]. intros H.
      destruct (IH H) as (P & D & R).
      destruct (display_events_invisible (out s) evs Hev) as (P' & A & B).
      unfold emitted_pwm, direction in *. cbn [out]. rewrite P', A, B.
      split; [exact P | split; [exact D | exact R]].
Qed.

(** X11.  The flag protocol loses no change.  In every state the system
    reaches, with the interrupt firing between any two stages of the loop:
    whenever [pwmUpdateNeeded] is clear, the duty last handed to the timer is
    the one of the present count and speed intents, [dutyCycle] is the
    percentage of the present count, and the direction pins show the present
    [forward]. *)
Theorem clear_flag_means_outputs_current (c : stage * state) :
  reachable c ->
  pwmUpdateNeeded (snd c) = false ->
  emitted_pwm (snd c)
  = Some (duty_for (count (snd c)) (speed2x (snd c)) (speedFull (snd c)))
  /\ dutyCycle (snd c) = duty_of_count (count (snd c))
  /\ direction (snd c)
     = (Some (fst (direction_levels (snd c))), Some (snd (direction_levels (snd c)))).
Proof. intros H. exact (outputs_current_inv c H). Qed.

Lemma clear_flag_means_outputs_current_witness :
  emitted_pwm (outputStage (pollButtons (mkButtons false true true true)
                              (checkKYbutton true 0 0 init)))
  = Some 1023.
Proof.
  exact (proj1 (clear_flag_means_outputs_current _ reachable_reverse eq_refl)).
Defined.

(** ** The duty as a function of the count *)

(** Checked on each of the 2047 counts: the base duty is half the count,
    rounded down, or one less than that at some even counts. *)
Lemma base_duty_near_half c :
  0 <= c <= COUNTLIMIT ->
  base_duty (duty_of_count c) = c / 2
  \/ (base_duty (duty_of_count c) = c / 2 - 1 /\ Z.even c = true).
Proof.
  intros Hc.
  assert (H : all_below 2047
                (fun c => let b := base_duty (duty_of_count c) in
                          (b =? c / 2) || ((b =? c / 2 - 1) && Z.even c)) = true)
    by (vm_compute; reflexivity).
  pose proof (all_below_spec _ _ H c) as Hb. cbv zeta in Hb.
  unfold COUNTLIMIT in Hc. specialize (Hb ltac:(lia)).
  apply orb_true_iff in Hb. destruct Hb as [Hb|Hb].
  - left. apply Z.eqb_eq, Hb.
  - right. apply andb_true_iff in Hb. destruct Hb as [Hb He].
    split; [apply Z.eqb_eq, Hb | exact He].
Qed.

(** X12.  How the PWM duty follows the knob.  For every count in
    [0, COUNTLIMIT] the base duty computed through the float percentage lies
    in [0, 1023] and is half the count rounded down, except that at some
    even counts the float rounding loses one step (count 34 gives 16, not
    17); at odd counts it is exact, and the two ends give 0 and 1023. *)
Theorem base_duty_tracks_half_count (c : Z) :
  0 <= c <= COUNTLIMIT ->
  0 <= base_duty (duty_of_count c) <= 1023
  /\ c / 2 - 1 <= base_duty (duty_of_count c) <= c / 2
  /\ (Z.odd c = true -> base_duty (duty_of_count c) = c / 2)
  /\ base_duty (duty_of_count 0) = 0
  /\ base_duty (duty_of_count COUNTLIMIT) = 1023
  /\ base_duty (duty_of_count 34) = 16.
Proof.
  intros Hc. split; [apply base_duty_range, Hc|].
  split; [destruct (base_duty_near_half c Hc) as [E|[E _]]; lia|].
  split; [|repeat split; vm_compute; reflexivity].
  intros Ho. destruct (base_duty_near_half c Hc) as [E|[_ E]]; [exact E|].
  rewrite <- Z.negb_odd, Ho in E. discriminate E.
Qed.

Lemma base_duty_tracks_half_count_witness :
  680 / 2 - 1 <= base_duty (duty_of_count 680) <= 680 / 2.
Proof.
  refine (proj1 (proj2 (base_duty_tracks_half_count 680 _))).
  unfold COUNTLIMIT. lia.
Defined.

Lemma base_duty_le (c c' : Z) :
  0 <= c -> c <= c' -> c' <= COUNTLIMIT ->
  base_duty (duty_of_count c) <= base_duty (duty_of_count c').
Proof.
  intros H0 Hle Hmax.
  destruct (Z.eq_dec c c') as [->|Hne]; [lia|].
  assert (Hlow : base_duty (duty_of_count c) <= c / 2)
    by (destruct (base_duty_near_half c ltac:(lia)) as [E|[E _]]; lia).
  destruct (base_duty_near_half c' ltac:(lia)) as [E'|[E' Ev']]; rewrite E'.
  - assert (c / 2 <= c' / 2) by (apply Z.div_le_mono; lia). lia.
  - apply Z.even_spec in Ev'. destruct Ev' as [m' ->].
    assert (c / 2 <= (2 * m' - 1) / 2) by (apply Z.div_le_mono; lia).
    assert ((2 * m' - 1) / 2 = m' - 1)
      by (symmetry; apply (Z.div_unique _ _ _ 1); lia).
    assert (2 * m' / 2 = m') by (rewrite Z.mul_comm; apply Z.div_mul; lia).
    lia.
Qed.

(** X13.  Turning the knob up never lowers the duty: the base duty is
    monotone in the count over [0, COUNTLIMIT], the lost steps
    notwithstanding. *)
Theorem base_duty_monotone (c c' : Z) :
  0 <= c -> c <= c' -> c' <= COUNTLIMIT ->
  base_duty (duty_of_count c) <= base_duty (duty_of_count c').
Proof. apply base_duty_le. Qed.

Lemma base_duty_monotone_witness :
  (base_duty (duty_of_count 33) <=? base_duty (duty_of_count 34)) = true.
Proof.
  apply Z.leb_le.
  apply (base_duty_monotone 33 34); unfold COUNTLIMIT; lia.
Defined.

(** X14.  Where the 2x override leaves the range of the timer.  With
    [speed2x] set the duty handed to the timer is twice the base duty, never
    clamped: it stays within the 10 bit range (at most 1022) for the counts up
    to 1023, the lower half of the knob's range, and exceeds 1023 for every
    count from 1024 on, up to 2046 at COUNTLIMIT. *)
Theorem doubling_overflows_above_half_scale (c : Z) (sfull : bool) :
  0 <= c <= COUNTLIMIT ->
  duty_for c true sfull = 2 * base_duty (duty_of_count c)
  /\ (c <= 1023 -> 0 <= duty_for c true sfull <= 1022)
  /\ (1024 <= c -> 1024 <= duty_for c true sfull <= 2046).
Proof.
  intros Hc. pose proof (base_duty_range c Hc) as Hr.
  assert (E : duty_for c true sfull = 2 * base_duty (duty_of_count c)).
  { unfold duty_for. cbv zeta. cbn [andb].
    rewrite wrap_int_id by (unfold Avr.int_range; lia). lia. }
  split; [exact E|]. rewrite E. split; intros H.
  - assert (base_duty (duty_of_count c) <= base_duty (duty_of_count 1023))
      by (apply base_duty_le; unfold COUNTLIMIT; lia).
    assert (base_duty (duty_of_count 1023) = 511) by (vm_compute; reflexivity).
    lia.
  - assert (base_duty (duty_of_count 1024) <= base_duty (duty_of_count c))
      by (apply base_duty_le; unfold COUNTLIMIT in *; lia).
    assert (base_duty (duty_of_count 1024) = 512) by (vm_compute; reflexivity).
    lia.
Qed.

Lemma doubling_overflows_above_half_scale_witness :
  duty_for 1024 true false = 2 * base_duty (duty_of_count 1024).
Proof.
  refine (proj1 (doubling_overflows_above_half_scale 1024 false _)).
  unfold COUNTLIMIT. lia.
Defined.

(** ** The display as a function of the count *)

Lemma displayNumber_off n d dot s :
  displayIsOn s = false ->
  displayIsOn (displayNumber n d dot s) = false
  /\ out (displayNumber n d dot s) =
     out s ++ [DigitalWrite RCLK_PIN LOW;
               ShiftOut DIO_PIN SCLK_PIN (Some 0xFF);
               ShiftOut DIO_PIN SCLK_PIN (at_index displays d);
               DigitalWrite RCLK_PIN HIGH;
               Delay 1].
Proof.
  intros H. unfold displayNumber. rewrite H.
  unfold andThen, emit. cbn [displayIsOn out]. split; [exact H|].
  rewrite <- !app_assoc. reflexivity.
Qed.

(** The bytes [display] shifts out for four digits, display on. *)
Lemma display_from_on d0 d1 d2 d3 s :
  displayIsOn s = true ->
  shifted (out (display_from 0 [d0; d1; d2; d3] s)) =
  shifted (out s)
  ++ [at_index bits d0; Some 0x08;
      option_map (fun v => Z.land v 0x7F) (at_index bits d1); Some 0x04;
      at_index bits d2; Some 0x02;
      at_index bits d3; Some 0x01].
Proof.
  intros Hon. cbn [display_from]. unfold andThen.
  destruct (displayNumber_on d0 0 (0 =? 1) s Hon) as [H1 O1].
  destruct (displayNumber_on d1 (0 + 1) (0 + 1 =? 1) _ H1) as [H2 O2].
  destruct (displayNumber_on d2 (0 + 1 + 1) (0 + 1 + 1 =? 1) _ H2) as [H3 O3].
  destruct (displayNumber_on d3 (0 + 1 + 1 + 1) (0 + 1 + 1 + 1 =? 1) _ H3) as [_ O4].
  rewrite O4, O3, O2, O1. rewrite !shifted_app, <- !app_assoc. reflexivity.
Qed.

Lemma display_from_off d0 d1 d2 d3 s :
  displayIsOn s = false ->
  shifted (out (display_from 0 [d0; d1; d2; d3] s)) =
  shifted (out s)
  ++ [Some 0xFF; Some 0x08; Some 0xFF; Some 0x04;
      Some 0xFF; Some 0x02; Some 0xFF; Some 0x01].
Proof.
  intros Hoff. cbn [display_from]. unfold andThen.
  destruct (displayNumber_off d0 0 (0 =? 1) s Hoff) as [H1 O1].
  destruct (displayNumber_off d1 (0 + 1) (0 + 1 =? 1) _ H1) as [H2 O2].
  destruct (displayNumber_off d2 (0 + 1 + 1) (0 + 1 + 1 =? 1) _ H2) as [H3 O3].
  destruct (displayNumber_off d3 (0 + 1 + 1 + 1) (0 + 1 + 1 + 1 =? 1) _ H3) as [_ O4].
  rewrite O4, O3, O2, O1. rewrite !shifted_app, <- !app_assoc. reflexivity.
Qed.

Lemma display_digits_four p :
  exists d0 d1 d2 d3, map Avr.wrap_byte (display_digits p) = [d0; d1; d2; d3].
Proof. unfold display_digits. cbv zeta. cbn [map]. eauto. Qed.

(** A decimal digit is one of the ten. *)
Lemma digit_cases d : 0 <= d <= 9 -> In d (map Z.of_nat (seq 0 10)).
Proof.
  intros H. apply in_map_iff. exists (Z.to_nat d).
  split; [apply Z2Nat.id; lia | apply in_seq; lia].
Qed.

(** Checked on each of the 2047 counts. *)
Lemma display_sweep c :
  0 <= c <= COUNTLIMIT ->
  displayed_number (display_digits (fraction_of_count c)) = 10000 * c / 2046
  /\ (c = 2046
      \/ forallb (fun d => (0 <=? d) && (d <=? 9))
                 (display_digits (fraction_of_count c)) = true).
Proof.
  intros Hc.
  assert (H : all_below 2047
                (fun c => let ds := display_digits (fraction_of_count c) in
                          (displayed_number ds =? 10000 * c / 2046)
                          && ((c =? 2046)
                              || forallb (fun d => (0 <=? d) && (d <=? 9)) ds)) = true)
    by (vm_compute; reflexivity).
  pose proof (all_below_spec _ _ H c) as Hb. cbv zeta in Hb.
  unfold COUNTLIMIT in Hc. specialize (Hb ltac:(lia)).
  apply andb_true_iff in Hb. destruct Hb as [Hn Hd].
  split; [apply Z.eqb_eq, Hn|].
  apply orb_true_iff in Hd. destruct Hd as [Hd|Hd]; [left; apply Z.eqb_eq, Hd | right; exact Hd].
Qed.

(** X15.  What the display shows.  For every count in [0, COUNTLIMIT], the
    four digits [display] computes from the fraction the loop hands it show
    the percentage count / COUNTLIMIT with two decimals, truncated, with no
    error from the float arithmetic: read as a number they are
    10000 * count / COUNTLIMIT rounded down.  Below COUNTLIMIT every digit is
    in 0..9, so every segment pattern comes from the table. *)
Theorem display_shows_truncated_percentage (c : Z) :
  0 <= c <= COUNTLIMIT ->
  displayed_number (display_digits (fraction_of_count c)) = 10000 * c / COUNTLIMIT
  /\ (c < COUNTLIMIT ->
      Forall (fun d => 0 <= d <= 9 /\ exists v, at_index bits d = Some v)
             (display_digits (fraction_of_count c))).
Proof.
  intros Hc. destruct (display_sweep c Hc) as [Hn Hd].
  split; [exact Hn|]. intros Hlt.
  destruct Hd as [->|Hd]; [unfold COUNTLIMIT in Hlt; lia|].
  apply Forall_forall. intros d Hin.
  rewrite forallb_forall in Hd. specialize (Hd d Hin).
  apply andb_true_iff in Hd. destruct Hd as [H0 H9].
  apply Z.leb_le in H0. apply Z.leb_le in H9. split; [lia|].
  pose proof (digit_cases d ltac:(lia)) as Hd. cbn in Hd.
  repeat (destruct Hd as [<-|Hd]; [eexists; reflexivity|]).
  destruct Hd.
Qed.

Lemma display_shows_truncated_percentage_witness :
  displayed_number (display_digits (fraction_of_count 157)) = 10000 * 157 / COUNTLIMIT.
Proof.
  refine (proj1 (display_shows_truncated_percentage 157 _)).
  unfold COUNTLIMIT. lia.
Defined.

(** X16.  At full scale the display reads past its table.  With the count
    at COUNTLIMIT the fraction is 1.0 and the first digit computed is 10;
    [bits] has the ten entries 0..9, so with the display on the first segment
    byte shifted out is whatever lies behind the table, while the other
    three digits show 0 (the second with the dot). *)
Theorem display_at_full_scale_reads_past_table (s : state) :
  displayIsOn s = true ->
  dutyCycle s = duty_of_count COUNTLIMIT ->
  display_digits (F32.div (dutyCycle s) (F32.of_int 100)) = [10; 0; 0; 0]
  /\ at_index bits 10 = None
  /\ shifted (out (displayStage s)) =
     shifted (out s)
     ++ [None; Some 0x08; Some 0x40; Some 0x04;
         Some 0xC0; Some 0x02; Some 0xC0; Some 0x01].
Proof.
  intros Hon Hd.
  assert (Hdig : display_digits (F32.div (dutyCycle s) (F32.of_int 100)) = [10; 0; 0; 0])
    by (rewrite Hd; vm_compute; reflexivity).
  split; [exact Hdig|]. split; [reflexivity|].
  unfold displayStage, display. rewrite Hdig. cbn [map].
  rewrite (display_from_on _ _ _ _ s Hon). reflexivity.
Qed.

Lemma display_at_full_scale_reads_past_table_witness :
  at_index bits 10 = None.
Proof.
  exact (proj1 (proj2
    (display_at_full_scale_reads_past_table
       (set_dutyCycle (duty_of_count COUNTLIMIT) init) eq_refl eq_refl))).
Defined.

(** X17.  With the display switched off, [display] blanks all four digits
    whatever the value: each segment byte is 0xFF (no segment, no dot), and
    the four select lines are still strobed in order. *)
Theorem display_off_blanks (p : F32.float) (s : state) :
  displayIsOn s = false ->
  shifted (out (display p s)) =
  shifted (out s)
  ++ [Some 0xFF; Some 0x08; Some 0xFF; Some 0x04;
      Some 0xFF; Some 0x02; Some 0xFF; Some 0x01].
Proof.
  intros Hoff. unfold display.
  destruct (display_digits_four p) as (d0 & d1 & d2 & d3 & E). rewrite E.
  apply display_from_off, Hoff.
Qed.

Lemma display_off_blanks_witness :
  shifted (out (display (F32.literal 1599 10000) (set_displayIsOn false init))) =
  [Some 0xFF; Some 0x08; Some 0xFF; Some 0x04;
   Some 0xFF; Some 0x02; Some 0xFF; Some 0x01].
Proof.
  exact (display_off_blanks (F32.literal 1599 10000) (set_displayIsOn false init)
           eq_refl).
Defined.

(** X18.  [display] drives the display and nothing else: whatever the value
    and the state, it changes no global, writes neither direction pin, hands
    nothing to the timer, and shifts out exactly eight bytes (segments and
    select line for each of the four digits). *)
Theorem display_only_drives_the_display (p : F32.float) (s : state) :
  globals (display p s) = globals s
  /\ direction (display p s) = direction s
  /\ pwm_duties (out (display p s)) = pwm_duties (out s)
  /\ length (shifted (out (display p s))) = (length (shifted (out s)) + 8)%nat.
Proof.
  split; [apply display_from_globals|].
  destruct (display_from_out (map Avr.wrap_byte (display_digits p)) 0 s)
    as (evs & E & Hev).
  destruct (display_events_invisible (out s) evs Hev) as (P & A & B).
  unfold direction, display. rewrite E, P, A, B.
  split; [reflexivity|]. split; [reflexivity|].
  rewrite <- E. destruct (display_digits_four p) as (d0 & d1 & d2 & d3 & Ed).
  rewrite Ed. destruct (displayIsOn s) eqn:Hon.
  - rewrite (display_from_on _ _ _ _ s Hon), length_app. reflexivity.
  - rewrite (display_from_off _ _ _ _ s Hon), length_app. reflexivity.
Qed.

(** X19.  The segment table tells the ten digits apart and leaves the dot to
    [displayNumber]: every index 0..9 has a byte, no two of them the same,
    none with the dot lit (bit 7 clear), and clearing bit 7 lights the dot
    and leaves the seven segment bits as they are. *)
Theorem segment_table_is_injective (n m : Z) :
  0 <= n <= 9 -> 0 <= m <= 9 ->
  (exists v, at_index bits n = Some v
             /\ 0 <= v <= 255
             /\ dot_lit (Some v) = false
             /\ dot_lit (Some (Z.land v 0x7F)) = true
             /\ Z.land v 0x7F = v - 128)
  /\ (at_index bits n = at_index bits m -> n = m).
Proof.
  intros Hn Hm.
  pose proof (digit_cases n Hn) as En. pose proof (digit_cases m Hm) as Em.
  clear Hn Hm. cbn in En, Em. split.
  - repeat (destruct En as [<-|En];
            [eexists; split; [reflexivity|]; split; [lia|]; repeat split; reflexivity|]).
    destruct En.
  - repeat (destruct En as [<-|En];
            [repeat (destruct Em as [<-|Em];
                     [cbn; intros H; first [reflexivity | discriminate H]|]);
             destruct Em|]).
    destruct En.
Qed.

Lemma segment_table_is_injective_witness :
  exists v, at_index bits 7 = Some v
            /\ 0 <= v <= 255
            /\ dot_lit (Some v) = false
            /\ dot_lit (Some (Z.land v 0x7F)) = true
            /\ Z.land v 0x7F = v - 128.
Proof.
  refine (proj1 (segment_table_is_injective 7 1 _ _)); lia.
Defined.

(** ** The direction pins between two writes *)

Lemma direction_of_log_app_display l evs :
  forallb is_display_event evs = true ->
  direction_of_log (l ++ evs) = direction_of_log l.
Proof.
  intros Hev. destruct (display_events_invisible l evs Hev) as (_ & A & B).
  unfold direction_of_log. rewrite A, B. reflexivity.
Qed.

Lemma forallb_firstn {A : Type} (f : A -> bool) (n : nat) (l : list A) :
  forallb f l = true -> forallb f (firstn n l) = true.
Proof.
  revert n. induction l as [|x l IH]; intros n H; destruct n; try reflexivity.
  cbn in H |- *. apply andb_true_iff in H. destruct H as [Hx Hl].
  rewrite Hx, (IH n Hl). reflexivity.
Qed.

(** A prefix that ends inside what was appended. *)
Lemma firstn_past (l x : list event) (k : nat) :
  (length l < k)%nat ->
  firstn k (l ++ x) = l ++ firstn (k - length l) x.
Proof.
  intros H. rewrite firstn_app, firstn_all2 by lia. reflexivity.
Qed.

Lemma firstn_within (l x : list event) (k : nat) :
  (k <= length l)%nat -> firstn k (l ++ x) = firstn k l.
Proof.
  intros H. rewrite firstn_app.
  replace (k - length l)%nat with 0%nat by lia. cbn. apply app_nil_r.
Qed.

(** The invariant of the logs: at their end the pins are unwritten, forward
    or reverse; inside, both are LOW only between the two writes. *)
Lemma sketch_log_pins l :
  sketch_log l ->
  (direction_of_log l = (None, None)
   \/ direction_of_log l = (Some LOW, Some HIGH)
   \/ direction_of_log l = (Some HIGH, Some LOW))
  /\ low_only_between_writes l.
Proof.
  induction 1 as [|l evs Hl [IHend IHin] Hev|l a d Hl [IHend IHin]].
  - split; [left; reflexivity|]. intros k H.
    rewrite firstn_nil in H. discriminate H.
  - split; [rewrite direction_of_log_app_display by exact Hev; exact IHend|].
    intros k H. destruct (Nat.le_gt_cases k (length l)) as [Hk|Hk].
    + rewrite firstn_within in H |- * by exact Hk.
      destruct (IHin k H) as [Hpre Hnext]. split; [exact Hpre|].
      rewrite nth_error_app1; [exact Hnext|].
      apply nth_error_Some. rewrite Hnext. discriminate.
    + exfalso. rewrite firstn_past in H by exact Hk.
      rewrite direction_of_log_app_display in H
        by (apply forallb_firstn; exact Hev).
      destruct IHend as [E|[E|E]]; rewrite E in H; discriminate H.
  - assert (Hfull : direction_of_log
                      (l ++ [DigitalWrite MOTOR_A1_PIN a;
                             DigitalWrite MOTOR_B1_PIN (negb a);
                             TimerPwm PWM_OUTPUT_PIN d])
                    = (Some a, Some (negb a)))
      by (unfold direction_of_log; rewrite !pin_level_app; reflexivity).
    split; [rewrite Hfull; destruct a; [right; right | right; left]; reflexivity|].
    intros k H. destruct (Nat.le_gt_cases k (length l)) as [Hk|Hk].
    + rewrite firstn_within in H |- * by exact Hk.
      destruct (IHin k H) as [Hpre Hnext]. split; [exact Hpre|].
      rewrite nth_error_app1; [exact Hnext|].
      apply nth_error_Some. rewrite Hnext. discriminate.
    + rewrite firstn_past in H |- * by exact Hk.
      assert (Hj : exists j, k = (length l + S j)%nat)
        by (exists (k - length l - 1)%nat; lia).
      destruct Hj as [j ->].
      replace (length l + S j - length l)%nat with (S j) in * by lia.
      destruct j as [|[|j]].
      * cbn [firstn] in H |- *.
        unfold direction_of_log in H. rewrite !pin_level_app in H.
        cbn in H. destruct a; [discriminate H|].
        split; [exists l; reflexivity|].
        rewrite nth_error_app2 by lia.
        replace (length l + 1 - length l)%nat with 1%nat by lia. reflexivity.
      * exfalso. cbn [firstn] in H.
        unfold direction_of_log in H. rewrite !pin_level_app in H.
        cbn in H. destruct a; discriminate H.
      * exfalso. cbn [firstn] in H. rewrite firstn_nil in H.
        rewrite Hfull in H. destruct a; discriminate H.
Qed.

Lemma reachable_sketch_log (c : stage * state) :
  reachable c -> sketch_log (out (snd c)).
Proof.
  intros Hc. pose proof (never_stopped_inv c Hc) as Hnever. revert Hnever.
  induction Hc as [|c c' Hreach IH Hstep]; intros Hnever; [apply log_nil|].
  specialize (IH (never_stopped_inv c Hreach)).
  destruct Hstep as [p s a b | s button now now' | s k | s | s]; cbn [snd] in *.
  - rewrite (proj2 (pinChangeISR_frame a b s)). exact IH.
  - rewrite (proj2 (checkKYbutton_frame button now now' s)). exact IH.
  - rewrite (proj2 (pollButtons_frame k s)). exact IH.
  - destruct (pwmUpdateNeeded s) eqn:Hrun.
    + rewrite (outputStage_run s Hrun). cbn [out].
      destruct (never_stopped_inv _ Hreach) as [Hst _]. cbn [snd] in Hst.
      destruct (direction_levels_not_stopped s Hst) as [E|E]; rewrite E;
        [apply (log_output (out s) LOW) | apply (log_output (out s) HIGH)];
        exact IH.
    + rewrite (outputStage_idle s Hrun). exact IH.
  - destruct (displayStage_out s) as (evs & E & Hev). rewrite E.
    apply log_display; assumption.
Qed.

(** C9, as the code has it.  [stopped] is never assigned: in every state the
    system reaches it is false, so the branch that writes LOW to both
    direction pins is never taken and every run of the output stage writes
    forward (INA low, INB high) or reverse (INA high, INB low).  At the end of
    every stage the pins show forward or reverse, or have not been written yet
    (before the first output stage, when no PWM has been started either).
    Inside a stage both pins are LOW at one moment only: right after the
    write of LOW to INA of a switch from reverse to forward, until the write
    of HIGH to INB that follows it. *)
Theorem stop_branch_unreachable_low_only_between_writes (p : stage) (s : state) :
  reachable (p, s) ->
  stopped s = false
  /\ (direction_levels s = (LOW, HIGH) \/ direction_levels s = (HIGH, LOW))
  /\ ((direction s = (None, None) /\ pwm_duties (out s) = [])
      \/ direction s = (Some LOW, Some HIGH)
      \/ direction s = (Some HIGH, Some LOW))
  /\ (forall k : nat,
        direction_of_log (firstn k (out s)) = (Some LOW, Some LOW) ->
        (exists l', firstn k (out s) = l' ++ [DigitalWrite MOTOR_A1_PIN LOW])
        /\ nth_error (out s) k = Some (DigitalWrite MOTOR_B1_PIN HIGH)).
Proof.
  intros H. destruct (never_stopped_inv (p, s) H) as [Hst Hdir]. cbn [snd] in *.
  split; [exact Hst|].
  split; [apply direction_levels_not_stopped, Hst|].
  split; [exact Hdir|].
  exact (proj2 (sketch_log_pins _ (reachable_sketch_log (p, s) H))).
Qed.

(** Two idle-time iterations: button 1 held, then released. *)
Lemma reachable_reverse_then_forward :
  reachable (AtCheckKY,
             loop (idle 0)
               (loop (mkLoopInput true 0 0 (mkButtons false true true true)) init)).
Proof.
  eapply reachable_step; [|apply step_display].
  eapply reachable_step; [|apply step_output].
  eapply reachable_step; [|apply (step_buttons _ released)].
  eapply reachable_step; [|apply (step_checkKY _ true 0 0)].
  eapply reachable_step; [|apply step_display].
  eapply reachable_step; [|apply step_output].
  eapply reachable_step; [|apply (step_buttons _ (mkButtons false true true true))].
  eapply reachable_step; [|apply (step_checkKY _ true 0 0)].
  apply reachable_init.
Defined.

Lemma stop_branch_unreachable_low_only_between_writes_witness :
  stopped (loop (idle 0)
             (loop (mkLoopInput true 0 0 (mkButtons false true true true)) init))
  = false
  /\ nth_error
       (out (loop (idle 0)
               (loop (mkLoopInput true 0 0 (mkButtons false true true true)) init)))
       24
     = Some (DigitalWrite MOTOR_B1_PIN HIGH).
Proof.
  pose proof (stop_branch_unreachable_low_only_between_writes
                _ _ reachable_reverse_then_forward) as H.
  split; [exact (proj1 H)|].
  refine (proj2 (proj2 (proj2 (proj2 H)) 24%nat _)).
  vm_compute. reflexivity.
Defined.

(** C9, as stated, fails.  Button 1 held during the first iteration gives
    reverse (INA high, INB low); released during the second, the output stage
    switches to forward and writes INA first: after that write, the 24th
    output of the sketch, and until INB is written, both direction pins are
    LOW. *)
Lemma both_pins_low_between_the_two_writes :
  reachable (AtCheckKY,
             loop (idle 0)
               (loop (mkLoopInput true 0 0 (mkButtons false true true true)) init))
  /\ direction_of_log
       (firstn 23
          (out (loop (idle 0)
                  (loop (mkLoopInput true 0 0 (mkButtons false true true true)) init))))
     = (Some HIGH, Some LOW)
  /\ nth_error
       (out (loop (idle 0)
               (loop (mkLoopInput true 0 0 (mkButtons false true true true)) init)))
       23
     = Some (DigitalWrite MOTOR_A1_PIN LOW)
  /\ direction_of_log
       (firstn 24
          (out (loop (idle 0)
                  (loop (mkLoopInput true 0 0 (mkButtons false true true true)) init))))
     = (Some LOW, Some LOW).
Proof.
  split; [exact reachable_reverse_then_forward|].
  repeat split; vm_compute; reflexivity.
Qed.
